(** * Effect timing and transform engine of the Explaino front end

    A shallow embedding of [src/utils/effectProcessor.js] (coordinate
    normalisation, auto-scale, phased easing, overlap resolution, transform
    synthesis), of the per-frame render step of
    [src/components/VideoEffectPreview.jsx], and of the instruction
    generator the export handler calls.

    JavaScript numbers are IEEE-754 doubles.  They are modelled as exact
    rationals extended with the two infinities and NaN: the special values
    follow IEEE-754 (division by zero, comparisons with NaN, ...), finite
    arithmetic is exact (no rounding, no overflow) and the sign of zero is
    not tracked.  The concrete scenarios are run a second time on binary64
    floats, and so is the one equality of the specification that rounding
    breaks (the fixed center of the zoom).

    The second part covers the rest of the engine and of the two player
    components: the easing curves, the progress for every argument, the
    normalised box, the render step on normalised effects, the time display,
    seeking, audio synchronisation and the export handler. *)

From Stdlib Require Import QArith Qminmax Qround Qabs Lqa Lia List Bool String.
From Stdlib Require Import Floats.
From Stdlib Require Import ZArith NArith Ascii Decimal DecimalString.
From Stdlib Require Import Permutation.
From Stdlib Require Qcanon.
Import ListNotations.

(** ** JavaScript numbers *)

Module JsNum.

Inductive jsnum : Type :=
| Num (q : Q)
| Inf (negative : bool)
| NaN.

Abbreviation PosInf := (Inf false).
Abbreviation NegInf := (Inf true).

Definition Qltb (a b : Q) : bool := negb (Qle_bool b a).

(** [-a] *)
Definition jneg (a : jsnum) : jsnum :=
  match a with
  | Num p => Num (- p)
  | Inf s => Inf (negb s)
  | NaN => NaN
  end.

(** [a + b] *)
Definition jadd (a b : jsnum) : jsnum :=
  match a, b with
  | NaN, _ | _, NaN => NaN
  | Num p, Num q => Num (p + q)
  | Inf s, Inf s' => if Bool.eqb s s' then Inf s else NaN
  | Inf s, Num _ | Num _, Inf s => Inf s
  end.

(** [a - b] *)
Definition jsub (a b : jsnum) : jsnum :=
  match a, b with
  | NaN, _ | _, NaN => NaN
  | Num p, Num q => Num (p - q)
  | Inf s, Inf s' => if Bool.eqb s s' then NaN else Inf s
  | Inf s, Num _ => Inf s
  | Num _, Inf s => Inf (negb s)
  end.

(** [a * b] *)
Definition jmul (a b : jsnum) : jsnum :=
  match a, b with
  | NaN, _ | _, NaN => NaN
  | Num p, Num q => Num (p * q)
  | Inf s, Inf s' => Inf (xorb s s')
  | Inf s, Num q | Num q, Inf s =>
      match q ?= 0 with
      | Eq => NaN
      | Gt => Inf s
      | Lt => Inf (negb s)
      end
  end.

(** [a / b]: a finite number divided by zero is an infinity of the sign
    of the numerator, and [0 / 0] is NaN. *)
Definition jdiv (a b : jsnum) : jsnum :=
  match a, b with
  | NaN, _ | _, NaN => NaN
  | Inf _, Inf _ => NaN
  | Inf s, Num q =>
      match q ?= 0 with
      | Lt => Inf (negb s)
      | _ => Inf s
      end
  | Num _, Inf _ => Num 0
  | Num p, Num q =>
      match q ?= 0 with
      | Eq =>
          match p ?= 0 with
          | Eq => NaN
          | Gt => PosInf
          | Lt => NegInf
          end
      | _ => Num (p / q)
      end
  end.

(** [a < b]; every comparison with NaN is false. *)
Definition jlt (a b : jsnum) : bool :=
  match a, b with
  | NaN, _ | _, NaN => false
  | Num p, Num q => Qltb p q
  | Inf s, Inf s' => s && negb s'
  | Inf s, Num _ => s
  | Num _, Inf s => negb s
  end.

(** [a <= b] *)
Definition jle (a b : jsnum) : bool :=
  match a, b with
  | NaN, _ | _, NaN => false
  | Num p, Num q => Qle_bool p q
  | Inf s, Inf s' => s || negb s'
  | Inf s, Num _ => s
  | Num _, Inf s => negb s
  end.

(** [a > b] and [a >= b] *)
Definition jgt (a b : jsnum) : bool := jlt b a.
Definition jge (a b : jsnum) : bool := jle b a.

(** [a === b] on numbers *)
Definition jeqb (a b : jsnum) : bool :=
  match a, b with
  | Num p, Num q => Qeq_bool p q
  | Inf s, Inf s' => Bool.eqb s s'
  | _, _ => false
  end.

(** [Math.max(a, b)] and [Math.min(a, b)]: NaN when an argument is. *)
Definition Math_max (a b : jsnum) : jsnum :=
  match a, b with
  | NaN, _ | _, NaN => NaN
  | _, _ => if jlt a b then b else a
  end.

Definition Math_min (a b : jsnum) : jsnum :=
  match a, b with
  | NaN, _ | _, NaN => NaN
  | _, _ => if jlt b a then b else a
  end.

(** [Math.pow(a, n)] for a literal natural exponent [n]. *)
Fixpoint Math_pow (a : jsnum) (n : nat) : jsnum :=
  match n with
  | O => Num 1
  | S O => a
  | S m => jmul a (Math_pow a m)
  end.

(** Truthiness of a number: [0] and NaN are falsy. *)
Definition truthy (a : jsnum) : bool :=
  match a with
  | Num q => negb (Qeq_bool q 0)
  | Inf _ => true
  | NaN => false
  end.

Definition is_NaN (a : jsnum) : bool :=
  match a with NaN => true | _ => false end.

(** Numeric equality of two numbers of the model, up to the
    representation of the rationals. *)
Definition jeq (a b : jsnum) : Prop :=
  match a, b with
  | Num p, Num q => p == q
  | Inf s, Inf s' => s = s'
  | NaN, NaN => True
  | _, _ => False
  end.

End JsNum.
Export JsNum.

Declare Scope js_scope.
Delimit Scope js_scope with js.
Bind Scope js_scope with jsnum.
Infix "+" := jadd : js_scope.
Infix "-" := jsub : js_scope.
Infix "*" := jmul : js_scope.
Infix "/" := jdiv : js_scope.
Notation "- a" := (jneg a) : js_scope.
Infix "<?" := jlt : js_scope.
Infix "<=?" := jle : js_scope.
Infix ">?" := jgt : js_scope.
Infix ">=?" := jge : js_scope.
Coercion Num : Q >-> jsnum.

(** ** Data of the engine *)

(** A bounding box [{x, y, width, height}] in recording pixels. *)
Module Bounds.
Record t : Type := mk { x : jsnum; y : jsnum; width : jsnum; height : jsnum }.
End Bounds.

(** The object [normalizeCoordinates] returns: the fields of the bounds it
    was given ([...bounds]) followed by the derived ones. *)
Module NormalizedBounds.
Record t : Type := mk {
  bounds : Bounds.t;
  centerX : jsnum;
  centerY : jsnum;
  anchorX : jsnum;
  anchorY : jsnum;
  autoScale : jsnum;
  startScale : jsnum;
  endScale : jsnum;
  areaRatio : jsnum;
  widthRatio : jsnum;
  heightRatio : jsnum;
  dominantRatio : jsnum;
  effectiveRatio : jsnum
}.
End NormalizedBounds.

(** The result of [calculateZoomTransform]. *)
Module Transform.
Record t : Type := mk { scale : jsnum; translateX : jsnum; translateY : jsnum }.
End Transform.

(** The functions that select effects read only [effect.start] and
    [effect.end] of the objects they are given. *)
Class Timed (E : Type) : Type := {
  start : E -> jsnum;
  end_ : E -> jsnum
}.

(** ** effectProcessor.js *)

Module EffectProcessor.

Local Open Scope js_scope.

(** The auto-scale tiers and the clamp, lines 52-68 of
    [normalizeCoordinates]. *)
Definition autoScale (effectiveRatio : jsnum) : jsnum :=
  let autoScale :=
    if effectiveRatio <? 0.01%Q then
      1.5%Q + (0.01%Q - effectiveRatio) / 0.01%Q * 0.5%Q
    else if effectiveRatio <? 0.1%Q then
      1.2%Q + (0.1%Q - effectiveRatio) / 0.09%Q * 0.3%Q
    else if effectiveRatio <? 0.5%Q then
      1.0%Q + (0.5%Q - effectiveRatio) / 0.4%Q * 0.2%Q
    else
      1.0%Q in
  Math_max 1.0%Q (Math_min 2.5%Q autoScale).

Definition normalizeCoordinates
    (bounds : Bounds.t) (recordingWidth recordingHeight : jsnum)
    (videoWidth videoHeight : jsnum) : NormalizedBounds.t :=
  let centerX := Bounds.x bounds + Bounds.width bounds / 2%Q in
  let centerY := Bounds.y bounds + Bounds.height bounds / 2%Q in
  let anchorX := centerX / recordingWidth in
  let anchorY := centerY / recordingHeight in
  let boundingBoxArea := Bounds.width bounds * Bounds.height bounds in
  let screenArea := recordingWidth * recordingHeight in
  let areaRatio := boundingBoxArea / screenArea in
  let widthRatio := Bounds.width bounds / recordingWidth in
  let heightRatio := Bounds.height bounds / recordingHeight in
  let dominantRatio := Math_max widthRatio heightRatio in
  let effectiveRatio := Math_max areaRatio dominantRatio in
  let autoScale := autoScale effectiveRatio in
  let startScale : jsnum := 1.0%Q in
  let endScale := autoScale in
  {| NormalizedBounds.bounds := bounds;
     NormalizedBounds.centerX := centerX;
     NormalizedBounds.centerY := centerY;
     NormalizedBounds.anchorX := anchorX;
     NormalizedBounds.anchorY := anchorY;
     NormalizedBounds.autoScale := autoScale;
     NormalizedBounds.startScale := startScale;
     NormalizedBounds.endScale := endScale;
     NormalizedBounds.areaRatio := areaRatio;
     NormalizedBounds.widthRatio := widthRatio;
     NormalizedBounds.heightRatio := heightRatio;
     NormalizedBounds.dominantRatio := dominantRatio;
     NormalizedBounds.effectiveRatio := effectiveRatio |}.

Definition easeInOutCubic (t : jsnum) : jsnum :=
  if t <? 0.5%Q then 4%Q * t * t * t
  else 1%Q - Math_pow (- 2%Q * t + 2%Q) 3 / 2%Q.

Definition easeInOutQuad (t : jsnum) : jsnum :=
  if t <? 0.5%Q then 2%Q * t * t
  else 1%Q - Math_pow (- 2%Q * t + 2%Q) 2 / 2%Q.

Definition computeEffectProgress
    (currentTime start end_ easeInPercent easeOutPercent : jsnum) : jsnum :=
  let duration := end_ - start in
  let t := (currentTime - start) / duration in
  if t <=? 0%Q then 0%Q
  else if t >=? 1%Q then 0%Q
  else
    let easeInEnd := easeInPercent in
    let easeOutStart := 1%Q - easeOutPercent in
    if t <? easeInEnd then easeInOutCubic (t / easeInEnd)
    else if t >? easeOutStart then easeInOutCubic ((1%Q - t) / easeOutPercent)
    else 1%Q.

Definition calculateZoomTransform
    (progress centerX centerY targetScale : jsnum) : Transform.t :=
  let scale := 1%Q + (targetScale - 1%Q) * progress in
  let translateX := - centerX * (scale - 1%Q) in
  let translateY := - centerY * (scale - 1%Q) in
  {| Transform.scale := scale;
     Transform.translateX := translateX;
     Transform.translateY := translateY |}.

Definition getActiveEffects {E : Type} `{Timed E}
    (effects : list E) (currentTime : jsnum) : list E :=
  filter (fun effect =>
            (currentTime >=? start effect) && (currentTime <=? end_ effect))
         effects.

(** [effects.reduce(f)] without an initial value starts from the first
    element and folds [f] over the others from left to right. *)
Definition resolveZoomEffect {E : Type} `{Timed E}
    (effects : list E) : option E :=
  match effects with
  | [] => None
  | first :: others =>
      Some (fold_left
              (fun latest e => if start e >? start latest then e else latest)
              others first)
  end.

End EffectProcessor.

(** ** The display timeline and VideoEffectPreview.jsx *)

(** [effect.style.zoom] *)
Module Zoom.
Record t : Type := mk { enabled : bool; scale : jsnum }.
End Zoom.

(** A display effect of the instruction file: its window, the optional
    [effect.target?.bounds] and the optional [effect.style?.zoom]. *)
Module DisplayEffect.
Record t : Type := mk {
  start : jsnum;
  end_ : jsnum;
  target_bounds : option Bounds.t;
  style_zoom : option Zoom.t
}.
End DisplayEffect.

(** [{...effect, normalizedBounds}] *)
Module NormalizedEffect.
Record t : Type := mk {
  effect : DisplayEffect.t;
  normalizedBounds : NormalizedBounds.t
}.
End NormalizedEffect.

#[export] Instance DisplayEffect_Timed : Timed DisplayEffect.t :=
  {| start := DisplayEffect.start; end_ := DisplayEffect.end_ |}.

#[export] Instance NormalizedEffect_Timed : Timed NormalizedEffect.t :=
  {| start := fun e => DisplayEffect.start (NormalizedEffect.effect e);
     end_ := fun e => DisplayEffect.end_ (NormalizedEffect.effect e) |}.

(** [effect.target?.bounds && effect.style?.zoom?.enabled], the filter of
    the preview. *)
Definition zoomBounds (effect : DisplayEffect.t) : option Bounds.t :=
  match DisplayEffect.target_bounds effect, DisplayEffect.style_zoom effect with
  | Some bounds, Some zoom => if Zoom.enabled zoom then Some bounds else None
  | _, _ => None
  end.

Module VideoEffectPreview.

Import EffectProcessor.
Local Open Scope js_scope.

(** What one call of [renderFrame] does to the transform of the video
    layer: it writes one, leaves it as it is, or throws. *)
Inductive rendered : Type :=
| Applied (transform : Transform.t)
| Untouched
| Threw.

(** The identity transform, ['translate(0px, 0px) scale(1)']. *)
Definition identity : Transform.t :=
  {| Transform.scale := 1%Q;
     Transform.translateX := 0%Q;
     Transform.translateY := 0%Q |}.

(** [handleMetadata]: the effects with bounds and zoom enabled, each with
    its normalised bounds (the [filter] and the [map] in one pass). *)
Definition handleMetadata (displayEffects : list DisplayEffect.t)
    (recordingWidth recordingHeight : jsnum) : list NormalizedEffect.t :=
  flat_map
    (fun effect =>
       match zoomBounds effect with
       | Some bounds =>
           [ {| NormalizedEffect.effect := effect;
                NormalizedEffect.normalizedBounds :=
                  normalizeCoordinates bounds recordingWidth recordingHeight
                                       recordingWidth recordingHeight |} ]
       | None => []
       end)
    displayEffects.

(** [autoScale || effect.style.zoom.scale] *)
Definition targetScale (effect : NormalizedEffect.t) : option jsnum :=
  let autoScale :=
    NormalizedBounds.autoScale (NormalizedEffect.normalizedBounds effect) in
  if truthy autoScale then Some autoScale
  else
    match DisplayEffect.style_zoom (NormalizedEffect.effect effect) with
    | Some zoom => Some (Zoom.scale zoom)
    | None => None
    end.

(** The body of [renderFrame] for a mounted video layer, at the time
    [currentTime] of the video. *)
Definition renderFrame (normalizedEffects : list NormalizedEffect.t)
    (currentTime : jsnum) : rendered :=
  let activeEffects := getActiveEffects normalizedEffects currentTime in
  if Nat.ltb 0 (List.length activeEffects) then
    match resolveZoomEffect activeEffects with
    | Some effect =>
        let nb := NormalizedEffect.normalizedBounds effect in
        match targetScale effect with
        | Some targetScale =>
            let progress :=
              computeEffectProgress currentTime (start effect) (end_ effect)
                                    0.25%Q 0.25%Q in
            Applied (calculateZoomTransform progress
                       (NormalizedBounds.centerX nb)
                       (NormalizedBounds.centerY nb)
                       targetScale)
        | None => Threw
        end
    | None => Untouched
    end
  else Applied identity.

End VideoEffectPreview.

(** ** utils/instructionGenerator.js *)

(** The frame [{width, height}] of the recording. *)
Module Frame.
Record t : Type := mk { width : jsnum; height : jsnum }.
End Frame.

(** Plain JavaScript values: numbers, strings and objects as ordered lists
    of their own keys. *)
#[warnings="-register-all"]
Inductive jsval : Type :=
| VNum (n : jsnum)
| VStr (s : string)
| VObj (fields : list (string * jsval)).

Module InstructionGenerator.

Local Open Scope js_scope.
Local Open Scope string_scope.

Definition keys (v : jsval) : list string :=
  match v with
  | VObj fields => map fst fields
  | _ => []
  end.

Fixpoint get (key : string) (fields : list (string * jsval)) : option jsval :=
  match fields with
  | [] => None
  | (k, v) :: rest => if String.eqb k key then Some v else get key rest
  end.

Definition field (key : string) (v : jsval) : option jsval :=
  match v with
  | VObj fields => get key fields
  | _ => None
  end.

Definition frameObject (frame : Frame.t) : jsval :=
  VObj [("width", VNum (Frame.width frame));
        ("height", VNum (Frame.height frame))].

Definition boundsObject (bounds : Bounds.t) : jsval :=
  VObj [("x", VNum (Bounds.x bounds));
        ("y", VNum (Bounds.y bounds));
        ("width", VNum (Bounds.width bounds));
        ("height", VNum (Bounds.height bounds))].

(** Modelled from the spec: [generateZoomInstructions] of
    utils/instructionGenerator.js, which is not among the sources.  It keeps
    the effects with a bounding box and zoom enabled and emits for each
    [effect], [startTimeMs = start*1000], [durationMs = (end-start)*1000],
    [frame] and the original [boundingBox], and nothing else. *)
Definition generateZoomInstructions (displayEffects : list DisplayEffect.t)
    (frame : Frame.t) : list jsval :=
  flat_map
    (fun effect =>
       match zoomBounds effect with
       | Some bounds =>
           [ VObj [("effect", VStr "zoom");
                   ("startTimeMs",
                    VNum (DisplayEffect.start effect * 1000%Q));
                   ("durationMs",
                    VNum ((DisplayEffect.end_ effect
                           - DisplayEffect.start effect) * 1000%Q));
                   ("frame", frameObject frame);
                   ("boundingBox", boundsObject bounds)] ]
       | None => []
       end)
    displayEffects.

Definition allowedKeys : list string :=
  ["effect"; "startTimeMs"; "durationMs"; "frame"; "boundingBox"].
Definition allowedFrameKeys : list string := ["width"; "height"].
Definition allowedBoundingBoxKeys : list string :=
  ["x"; "y"; "width"; "height"].

Definition disallowed (allowed : list string) (v : jsval) : list string :=
  filter (fun key => negb (existsb (String.eqb key) allowed)) (keys v).

Definition nestedDisallowed (key : string) (allowed : list string)
    (instruction : jsval) : list string :=
  match field key instruction with
  | Some nested => map (fun k => key ++ "." ++ k) (disallowed allowed nested)
  | None => []
  end.

Module Purity.
Record t : Type := mk { clean : bool; violations : list string }.
End Purity.

(** Modelled from the spec: [checkInstructionPurity] of
    utils/instructionGenerator.js, which is not among the sources.  It
    reports every key of the instruction outside the allowed set and every
    key of its [frame] and [boundingBox] outside their allowed sets; the
    instruction is clean when there is none. *)
Definition checkInstructionPurity (instruction : jsval) : Purity.t :=
  let violations :=
    (disallowed allowedKeys instruction
     ++ nestedDisallowed "frame" allowedFrameKeys instruction
     ++ nestedDisallowed "boundingBox" allowedBoundingBoxKeys instruction)%list
  in
  {| Purity.clean := match violations with [] => true | _ => false end;
     Purity.violations := violations |}.

End InstructionGenerator.

(** ** The piecewise functions as the specification words them *)

Module Spec.

Local Open Scope Q_scope.

(** The four tiers of the auto-scale table, before the clamp. *)
Definition autoScaleTier (r : Q) : Q :=
  if Qltb r 0.01 then 1.5 + (0.01 - r) / 0.01 * 0.5
  else if Qltb r 0.1 then 1.2 + (0.1 - r) / 0.09 * 0.3
  else if Qltb r 0.5 then 1.0 + (0.5 - r) / 0.4 * 0.2
  else 1.0.

(** [easeInOutCubic(x) = 4x^3] for [x < 0.5], else [1 - (-2x+2)^3/2]. *)
Definition easeInOutCubic (x : Q) : Q :=
  if Qltb x 0.5 then 4 * (x * x * x)
  else 1 - ((-2 * x + 2) * (-2 * x + 2) * (-2 * x + 2)) / 2.

(** The progress of section 4.3 as a function of [u], with both ease
    fractions at 0.25. *)
Definition progress (u : Q) : Q :=
  if Qle_bool u 0 || Qle_bool 1 u then 0
  else if Qltb u 0.25 then easeInOutCubic (u / 0.25)
  else if Qltb 0.75 u then easeInOutCubic ((1 - u) / 0.25)
  else 1.

End Spec.

(** ** The scalar functions on binary64 floats

    The timing and auto-scale code once more, on the doubles JavaScript
    computes with, to run the concrete scenarios with the rounding of the
    hardware.  The decimal literals are rounded to the nearest double, as
    JavaScript does. *)

Module Binary64.

Local Open Scope float_scope.
#[local] Set Warnings "-inexact-float".

Definition Math_max (a b : float) : float :=
  if PrimFloat.is_nan a || PrimFloat.is_nan b then nan
  else if a <? b then b else a.

Definition Math_min (a b : float) : float :=
  if PrimFloat.is_nan a || PrimFloat.is_nan b then nan
  else if b <? a then b else a.

Definition autoScale (effectiveRatio : float) : float :=
  let autoScale :=
    if effectiveRatio <? 0.01 then
      1.5 + (0.01 - effectiveRatio) / 0.01 * 0.5
    else if effectiveRatio <? 0.1 then
      1.2 + (0.1 - effectiveRatio) / 0.09 * 0.3
    else if effectiveRatio <? 0.5 then
      1.0 + (0.5 - effectiveRatio) / 0.4 * 0.2
    else
      1.0 in
  Math_max 1.0 (Math_min 2.5 autoScale).

Section Timing.

(** [Math.pow] is not one of the correctly rounded operations: its last bit
    is left to the engine, so it is taken as it is given. *)
Variable Math_pow : float -> float -> float.

Definition easeInOutCubic (t : float) : float :=
  if t <? 0.5 then 4 * t * t * t
  else 1 - Math_pow (-2 * t + 2) 3 / 2.

Definition computeEffectProgress
    (currentTime start end_ easeInPercent easeOutPercent : float) : float :=
  let duration := end_ - start in
  let t := (currentTime - start) / duration in
  if t <=? 0 then 0
  else if 1 <=? t then 0
  else
    let easeInEnd := easeInPercent in
    let easeOutStart := 1 - easeOutPercent in
    if t <? easeInEnd then easeInOutCubic (t / easeInEnd)
    else if easeOutStart <? t then easeInOutCubic ((1 - t) / easeOutPercent)
    else 1.

End Timing.

(** The result of [calculateZoomTransform], in doubles. *)
Module Transform.
Record t : Type := mk { scale : float; translateX : float; translateY : float }.
End Transform.

Definition calculateZoomTransform
    (progress centerX centerY targetScale : float) : Transform.t :=
  let scale := 1 + (targetScale - 1) * progress in
  let translateX := - centerX * (scale - 1) in
  let translateY := - centerY * (scale - 1) in
  {| Transform.scale := scale;
     Transform.translateX := translateX;
     Transform.translateY := translateY |}.

(** The double is a zero or a finite number, and the double is a zero, read
    off its sign, mantissa and exponent. *)
Definition finite64 (x : float) : bool :=
  match Prim2SF x with
  | S754_zero _ | S754_finite _ _ _ => true
  | _ => false
  end.

Definition zero64 (x : float) : bool :=
  match Prim2SF x with
  | S754_zero _ => true
  | _ => false
  end.

End Binary64.

(** ** Auxiliary definitions of the development *)

(** [Math.max(1.0, Math.min(2.5, t))] on a rational. *)
Definition clampScale (t : Q) : Q :=
  let m := if Qltb t 2.5%Q then t else 2.5%Q in
  if Qltb 1.0%Q m then m else 1.0%Q.

(** One step of the [reduce] of [resolveZoomEffect]. *)
Definition later {E : Type} `{Timed E} (latest e : E) : E :=
  if jgt (start e) (start latest) then e else latest.

(** No start of the list is NaN. *)
Definition startsComparable {E : Type} `{Timed E} (effects : list E) : Prop :=
  Forall (fun e => is_NaN (start e) = false) effects.

(** No two effects of the list, at different positions, start at the same
    time. *)
Definition distinctStarts {E : Type} `{Timed E} (effects : list E) : Prop :=
  ForallOrdPairs (fun a b => jeqb (start a) (start b) = false) effects.

(** The keys of the values the preview derives. *)
Definition previewOnlyKeys : list string :=
  ["scale"; "easing"; "centerX"; "centerY"; "anchorX"; "anchorY";
   "autoScale"; "startScale"; "endScale"; "areaRatio"; "widthRatio";
   "heightRatio"; "dominantRatio"; "effectiveRatio";
   "normalizedBounds"]%string.

(** ** Sample inputs *)

(** The box of scenario A. *)
Definition scenarioA : Bounds.t :=
  {| Bounds.x := 640%Q; Bounds.y := 320%Q;
     Bounds.width := 240%Q; Bounds.height := 48%Q |}.

(** An effect over the window [[s, e]] with no target and no style. *)
Definition window (s e : Q) : DisplayEffect.t :=
  {| DisplayEffect.start := Num s; DisplayEffect.end_ := Num e;
     DisplayEffect.target_bounds := None; DisplayEffect.style_zoom := None |}.

(** A zoom on the box of scenario A over the window [[s, e]]. *)
Definition zoomOn (s e : Q) : DisplayEffect.t :=
  {| DisplayEffect.start := Num s; DisplayEffect.end_ := Num e;
     DisplayEffect.target_bounds := Some scenarioA;
     DisplayEffect.style_zoom :=
       Some {| Zoom.enabled := true; Zoom.scale := Num 1.5%Q |} |}.

(** Three effects active at [t = 4] and one that is not. *)
Definition overlapping : list DisplayEffect.t :=
  [window 1 5; window 3 6; window 2 9; window 7 8].

(** Two effects of the same latest start. *)
Definition tied : list DisplayEffect.t :=
  [window 2 5; window 3 6; window 3 9].

(** ** Further definitions: easing and timing *)

(** [easeInOutQuad] as a function of a rational: [2x^2] below one half,
    [1 - (-2x+2)^2/2] from there on. *)
Definition quadOf (x : Q) : Q :=
  (if Qltb x 0.5 then 2 * (x * x)
   else 1 - ((-2 * x + 2) * (-2 * x + 2)) / 2)%Q.

(** [Math.max(a, b)] on two rationals. *)
Definition maxOf (a b : Q) : Q := if Qltb a b then b else a.

(** The effect passes the filter of the preview. *)
Definition hasZoomBounds (effect : DisplayEffect.t) : bool :=
  match zoomBounds effect with
  | Some _ => true
  | None => false
  end.

(** The box is made of numbers and lies inside the frame [w] x [h]. *)
Definition boxInFrame (w h : Q) (bounds : Bounds.t) : Prop :=
  exists x y bw bh : Q,
    bounds = Bounds.mk (Num x) (Num y) (Num bw) (Num bh)
    /\ (0 <= x /\ 0 <= y /\ 0 < bw /\ 0 < bh
        /\ x + bw <= w /\ y + bh <= h)%Q.

(** The window of the effect is made of numbers with [start < end], and
    its box, when it has one, lies inside the frame. *)
Definition wellFormed (w h : Q) (effect : DisplayEffect.t) : Prop :=
  (exists s e : Q,
      DisplayEffect.start effect = Num s
      /\ DisplayEffect.end_ effect = Num e
      /\ (s < e)%Q)
  /\ (forall bounds,
         DisplayEffect.target_bounds effect = Some bounds ->
         boxInFrame w h bounds).

(** ** Further definitions: numbers as text *)

Module NumberText.

Local Open Scope string_scope.

(** [Math.floor(a)] *)
Definition Math_floor (a : jsnum) : jsnum :=
  match a with
  | Num q => Num (inject_Z (Qfloor q))
  | Inf s => Inf s
  | NaN => NaN
  end.

(** [Math.abs(a)] *)
Definition Math_abs (a : jsnum) : jsnum :=
  match a with
  | Num q => Num (Qabs q)
  | Inf _ => PosInf
  | NaN => NaN
  end.

(** The integer part of a rational, rounded towards zero. *)
Definition truncate (q : Q) : Z := Z.quot (Qnum q) (Zpos (Qden q)).

(** [a % b]: the remainder has the sign of [a]; it is NaN when [a] is not
    finite or [b] is zero, and [a] when [b] is infinite. *)
Definition jrem (a b : jsnum) : jsnum :=
  match a, b with
  | NaN, _ | _, NaN => NaN
  | Inf _, _ => NaN
  | Num p, Inf _ => Num p
  | Num p, Num q =>
      match (q ?= 0)%Q with
      | Eq => NaN
      | _ => Num (p - q * inject_Z (truncate (p / q)))%Q
      end
  end.

(** The integer a rational is, when it is one. *)
Definition integerOf (q : Q) : option Z :=
  let r := Qred q in
  if Pos.eqb (Qden r) 1 then Some (Qnum r) else None.

(** The decimal digits of an integer, with a minus sign when negative. *)
Definition decimal (z : Z) : string := NilZero.string_of_int (Z.to_int z).

(** [String(a)] for the numbers whose text is modelled: the integers
    below [10^21] in absolute value, the infinities and NaN.  Other numbers
    (fractions, and integers that JavaScript prints with an exponent) give
    [None]. *)
Definition toString (a : jsnum) : option string :=
  match a with
  | Num q =>
      match integerOf q with
      | Some z => if Z.ltb (Z.abs z) (10 ^ 21) then Some (decimal z) else None
      | None => None
      end
  | Inf false => Some "Infinity"
  | Inf true => Some "-Infinity"
  | NaN => Some "NaN"
  end.

(** [s.padStart(n, c)] for a fill [c] of one character. *)
Definition padStart (s : string) (n : nat) (c : Ascii.ascii) : string :=
  string_of_list_ascii (repeat c (n - String.length s)) ++ s.

(** [isNaN(a)] and [isFinite(a)] *)
Definition isNaN (a : jsnum) : bool := is_NaN a.
Definition isFinite (a : jsnum) : bool :=
  match a with Num _ => true | _ => false end.

End NumberText.

(** ** VideoEffectPreview.jsx, the controls *)

Module Preview.

Import NumberText.
Local Open Scope string_scope.

(** [formatTime] of the preview, [None] when a part is a number whose text
    is not modelled. *)
Definition formatTime (seconds : jsnum) : option string :=
  let mins := Math_floor (jdiv seconds (Num 60)) in
  let secs := Math_floor (jrem seconds (Num 60)) in
  match toString mins, toString secs with
  | Some m, Some s => Some (m ++ ":" ++ padStart s 2 "0"%char)
  | _, _ => None
  end.

(** [syncAudio]: the time of the audio after the call, for the times of
    the audio and of the video before it. *)
Definition syncAudio (audioTime videoTime : jsnum) : jsnum :=
  if jgt (Math_abs (jsub audioTime videoTime)) (Num 0.1) then videoTime
  else audioTime.

(** What [validateZoomInstruction] returns. *)
Module Validation.
Record t : Type := mk { valid : bool; errors : list string }.
End Validation.

(** The [instructions] prop, with its optional [displayEffects]. *)
Module Instructions.
Record t : Type := mk { displayEffects : option (list DisplayEffect.t) }.
End Instructions.

(** The dimensions [handleMetadata] stored: [video.videoWidth] and
    [video.videoHeight], unsigned integers. *)
Module RecordingDimensions.
Record t : Type := mk { recordingWidth : N; recordingHeight : N }.
End RecordingDimensions.

(** What [handleExport] ends with before the network: an error status, or
    the call of [submitBatchZoomInstructions]. *)
Inductive exported : Type :=
| ExportError (message : string)
| Submit (pureInstructions : list jsval).

Definition frameSize (dimensions : RecordingDimensions.t) : Frame.t :=
  {| Frame.width :=
       Num (inject_Z (Z.of_N (RecordingDimensions.recordingWidth dimensions)));
     Frame.height :=
       Num (inject_Z (Z.of_N (RecordingDimensions.recordingHeight dimensions)))
  |}.

Section ExportHandler.

(** The three functions of utils/instructionGenerator.js that
    [handleExport] calls, as it finds them. *)
Variable generateZoomInstructions :
  list DisplayEffect.t -> Frame.t -> list jsval.
Variable validateZoomInstruction : jsval -> Validation.t.
Variable checkInstructionPurity : jsval -> InstructionGenerator.Purity.t.

(** The loop over the instructions from index [i]: the message of the first
    error thrown, if one is. *)
Fixpoint validateFrom (i : nat) (pureInstructions : list jsval)
  : option string :=
  match pureInstructions with
  | [] => None
  | instruction :: rest =>
      let validation := validateZoomInstruction instruction in
      if negb (Validation.valid validation) then
        Some ("Instruction " ++ decimal (Z.of_nat (i + 1))
              ++ " validation failed: "
              ++ String.concat ", " (Validation.errors validation))
      else
        let purity := checkInstructionPurity instruction in
        if negb (InstructionGenerator.Purity.clean purity) then
          Some ("Instruction " ++ decimal (Z.of_nat (i + 1))
                ++ " contains forbidden fields: "
                ++ String.concat ", "
                     (InstructionGenerator.Purity.violations purity))
        else validateFrom (S i) rest
  end.

(** The instruction passes both checks of the loop. *)
Definition accepted (instruction : jsval) : bool :=
  Validation.valid (validateZoomInstruction instruction)
  && InstructionGenerator.Purity.clean (checkInstructionPurity instruction).

(** The message of the error thrown for the instruction of index [i]. *)
Definition rejection (i : nat) (instruction : jsval) : string :=
  if negb (Validation.valid (validateZoomInstruction instruction)) then
    "Instruction " ++ decimal (Z.of_nat (i + 1))
    ++ " validation failed: "
    ++ String.concat ", "
         (Validation.errors (validateZoomInstruction instruction))
  else
    "Instruction " ++ decimal (Z.of_nat (i + 1))
    ++ " contains forbidden fields: "
    ++ String.concat ", "
         (InstructionGenerator.Purity.violations
            (checkInstructionPurity instruction)).

Definition handleExport (instructions : option Instructions.t)
    (recordingDimensions : option RecordingDimensions.t) : exported :=
  match instructions with
  | Some {| Instructions.displayEffects := Some ((_ :: _) as displayEffects) |} =>
      match recordingDimensions with
      | None => ExportError "Video not loaded yet - wait for video to load"
      | Some dimensions =>
          let w := RecordingDimensions.recordingWidth dimensions in
          let h := RecordingDimensions.recordingHeight dimensions in
          if N.eqb w 0 || N.eqb h 0 then
            ExportError ("Invalid video dimensions: " ++ decimal (Z.of_N w)
                         ++ "x" ++ decimal (Z.of_N h))
          else
            let pureInstructions :=
              generateZoomInstructions displayEffects (frameSize dimensions) in
            match validateFrom 0 pureInstructions with
            | Some message => ExportError message
            | None => Submit pureInstructions
            end
      end
  | _ => ExportError "No effects to export"
  end.

End ExportHandler.

End Preview.

(** ** RecordingSessionPage.jsx *)

Module RecordingSessionPage.

Import NumberText.
Local Open Scope string_scope.

(** [formatTime] of the session page, with its guard. *)
Definition formatTime (time : jsnum) : option string :=
  if negb (truthy time) || isNaN time || negb (isFinite time) then Some "0:00"
  else
    let minutes := Math_floor (jdiv time (Num 60)) in
    let seconds := Math_floor (jrem time (Num 60)) in
    match toString minutes, toString seconds with
    | Some m, Some s => Some (m ++ ":" ++ padStart s 2 "0"%char)
    | _, _ => None
    end.

(** [handleTimeUpdate]: the time of the audio after the call. *)
Definition handleTimeUpdate (videoTime audioTime : jsnum) : jsnum :=
  let diff := Math_abs (jsub videoTime audioTime) in
  if jgt diff (Num 0.3) then videoTime else audioTime.

(** The time [handleSeek] sets for a click at [clientX] on a progress bar
    that starts at [left] and is [width] wide. *)
Definition handleSeek (clientX left width duration : jsnum) : jsnum :=
  let pos := jdiv (jsub clientX left) width in
  Math_max (Num 0) (Math_min (jmul pos duration) duration).

(** The audio address [handleGenerateSpeech] builds from the
    [processedAudioUrl] of the response. *)
Definition processedAudioUrl (API_BASE audioUrl : string) : string :=
  if prefix "http" audioUrl then audioUrl
  else
    let audioUrl := if prefix "/" audioUrl then audioUrl else "/" ++ audioUrl in
    API_BASE ++ audioUrl.

End RecordingSessionPage.

(** [Math.min(a, b)] on two rationals. *)
Definition minOf (a b : Q) : Q := if Qltb b a then b else a.

(** The two decimal digits of a number below 100. *)
Definition twoDigits (r : Z) : string :=
  String (Ascii.ascii_of_nat (48 + Z.to_nat (r / 10)))
    (String (Ascii.ascii_of_nat (48 + Z.to_nat (r mod 10))) EmptyString).

(** ** Further sample inputs *)

(** A validation that rejects boxes that start left of the frame. *)
Definition sampleValidate (instruction : jsval) : Preview.Validation.t :=
  match InstructionGenerator.field "boundingBox" instruction with
  | Some box =>
      match InstructionGenerator.field "x" box with
      | Some (VNum x) =>
          if jlt x (Num 0)
          then Preview.Validation.mk false ["boundingBox.x is negative"%string]
          else Preview.Validation.mk true []
      | _ => Preview.Validation.mk false ["boundingBox.x is missing"%string]
      end
  | None => Preview.Validation.mk false ["boundingBox is missing"%string]
  end.

(** A zoom on a box that starts 5 pixels left of the frame. *)
Definition zoomOutside (s e : Q) : DisplayEffect.t :=
  {| DisplayEffect.start := Num s; DisplayEffect.end_ := Num e;
     DisplayEffect.target_bounds :=
       Some (Bounds.mk (Num (-5)) (Num 320) (Num 240) (Num 48));
     DisplayEffect.style_zoom :=
       Some {| Zoom.enabled := true; Zoom.scale := Num 1.5%Q |} |}.

Definition fullHD : Preview.RecordingDimensions.t :=
  Preview.RecordingDimensions.mk 1920 1080.

(** ** Facts on the numbers *)

Section JsNumFacts.

Local Open Scope Q_scope.

Lemma Qltb_lt (a b : Q) : Qltb a b = true <-> a < b.
Proof.
  unfold Qltb. rewrite negb_true_iff, <- not_true_iff_false, Qle_bool_iff.
  split; [apply Qnot_le_lt | apply Qlt_not_le].
Qed.

Lemma Qltb_ge (a b : Q) : Qltb a b = false <-> b <= a.
Proof.
  unfold Qltb. rewrite negb_false_iff. apply Qle_bool_iff.
Qed.

Lemma Qle_bool_gt (a b : Q) : Qle_bool a b = false <-> b < a.
Proof.
  rewrite <- not_true_iff_false, Qle_bool_iff.
  split; [apply Qnot_le_lt | apply Qlt_not_le].
Qed.

Lemma jdiv_Num (p q : Q) : ~ q == 0 -> jdiv (Num p) (Num q) = Num (p / q).
Proof.
  intros Hq. simpl. destruct (q ?= 0) eqn:E; try reflexivity.
  apply Qeq_alt in E. contradiction.
Qed.

End JsNumFacts.

(** Case analysis on a comparison of two rationals that occurs in the
    goal, with the order fact it decides left in the context. *)
Ltac case_Qltb a b :=
  let E := fresh "E" in
  destruct (Qltb a b) eqn:E;
  [apply Qltb_lt in E | apply Qltb_ge in E].

Ltac case_Qle_bool a b :=
  let E := fresh "E" in
  destruct (Qle_bool a b) eqn:E;
  [apply Qle_bool_iff in E | apply Qle_bool_gt in E].

(** ** Transform synthesis *)

Section TransformSynthesis.

Import EffectProcessor.
Local Open Scope js_scope.

(** Without rounding the center is a fixed point of the map
    [x -> x*scale + translate]: the formulas are those of a scaling about
    the center.  On doubles the two sides can differ by the rounding of
    the products, as the evaluation on binary64 below shows. *)
Lemma calculateZoomTransform_center_unrounded (p cx cy s : Q) :
  let tr := calculateZoomTransform p cx cy s in
  jeq (cx * Transform.scale tr + Transform.translateX tr) cx
  /\ jeq (cy * Transform.scale tr + Transform.translateY tr) cy.
Proof.
  cbv zeta. unfold calculateZoomTransform; simpl. split; ring.
Qed.


End TransformSynthesis.

(** *** The transform on binary64 floats *)

Section TransformBinary64.

Local Open Scope float_scope.
#[local] Set Warnings "-inexact-float".


Lemma mul_zero64 (x z : float) :
  Binary64.finite64 x = true -> Binary64.zero64 z = true ->
  Binary64.zero64 (x * z) = true.
Proof.
  unfold Binary64.finite64, Binary64.zero64. rewrite mul_spec.
  destruct (Prim2SF x), (Prim2SF z); intros Hx Hz;
    try discriminate; reflexivity.
Qed.

Lemma one_plus_zero64 (z : float) : Binary64.zero64 z = true -> 1 + z = 1.
Proof.
  unfold Binary64.zero64. intros Hz. apply Prim2SF_inj. rewrite add_spec.
  change (Prim2SF 1) with (S754_finite false 4503599627370496 (-52)).
  destruct (Prim2SF z); try discriminate; reflexivity.
Qed.

Lemma opp_finite64 (x : float) :
  Binary64.finite64 x = true -> Binary64.finite64 (- x) = true.
Proof.
  unfold Binary64.finite64. rewrite opp_spec.
  destruct (Prim2SF x); intros Hx; try discriminate; reflexivity.
Qed.

Lemma zero64_eqb (z : float) : Binary64.zero64 z = true -> (z =? 0) = true.
Proof.
  unfold Binary64.zero64. rewrite FloatAxioms.eqb_spec.
  change (Prim2SF 0) with (S754_zero false).
  destruct (Prim2SF z); intros Hz; try discriminate; reflexivity.
Qed.

(** The identity at progress 0 holds on the doubles too: for every finite
    center, and every target scale [s] with [s - 1] finite, the scale is
    exactly 1 and both translations are a zero. *)
Lemma calculateZoomTransform_identity_binary64 (cx cy s : float) :
  Binary64.finite64 cx = true ->
  Binary64.finite64 cy = true ->
  Binary64.finite64 (s - 1) = true ->
  let tr := Binary64.calculateZoomTransform 0 cx cy s in
  Binary64.Transform.scale tr = 1
  /\ (Binary64.Transform.translateX tr =? 0) = true
  /\ (Binary64.Transform.translateY tr =? 0) = true.
Proof.
  intros Hcx Hcy Hs tr. subst tr.
  unfold Binary64.calculateZoomTransform. simpl.
  assert (Hz : Binary64.zero64 0 = true) by reflexivity.
  rewrite (one_plus_zero64 _ (mul_zero64 _ _ Hs Hz)).
  assert (Hz1 : Binary64.zero64 (1 - 1) = true) by reflexivity.
  split; [reflexivity |].
  split; apply zero64_eqb, mul_zero64; try exact Hz1;
    apply opp_finite64; assumption.
Qed.

End TransformBinary64.

(** ** Coordinate normalisation *)

Section Normalisation.

Import EffectProcessor.
Local Open Scope js_scope.

(** C10. The result of [normalizeCoordinates] does not depend on
    [videoWidth] and [videoHeight]: any two pairs give the same centers,
    anchors, ratios and scales, which come from the recording dimensions
    alone. *)
Theorem normalizeCoordinates_ignores_video_size :
  forall (bounds : Bounds.t) (recordingWidth recordingHeight : jsnum)
         (vw1 vh1 vw2 vh2 : jsnum),
    normalizeCoordinates bounds recordingWidth recordingHeight vw1 vh1
    = normalizeCoordinates bounds recordingWidth recordingHeight vw2 vh2.
Proof.
  intros. unfold normalizeCoordinates. reflexivity.
Qed.

(** C8. For the box [{x:640, y:320, width:240, height:48}] in a 1920x1080
    frame: widthRatio, dominantRatio and effectiveRatio are 0.125,
    areaRatio is 11520/2073600 (about 0.00556), heightRatio is about
    0.0444; 0.125 lies in the tier [0.1, 0.5), and autoScale is
    [1.0 + (0.5-0.125)/0.4*0.2 = 1.1875]. *)
Theorem normalizeCoordinates_scenarioA :
  forall vw vh : jsnum,
    let nb := normalizeCoordinates scenarioA 1920%Q 1080%Q vw vh in
    jeq (NormalizedBounds.widthRatio nb) 0.125%Q
    /\ jeq (NormalizedBounds.dominantRatio nb) 0.125%Q
    /\ jeq (NormalizedBounds.effectiveRatio nb) 0.125%Q
    /\ jeq (NormalizedBounds.areaRatio nb) (11520 / 2073600)%Q
    /\ (0.00555%Q <? NormalizedBounds.areaRatio nb) = true
    /\ (NormalizedBounds.areaRatio nb <? 0.00556%Q) = true
    /\ (0.0444%Q <? NormalizedBounds.heightRatio nb) = true
    /\ (NormalizedBounds.heightRatio nb <? 0.0445%Q) = true
    /\ (NormalizedBounds.effectiveRatio nb <? 0.1%Q) = false
    /\ (NormalizedBounds.effectiveRatio nb <? 0.5%Q) = true
    /\ jeq (NormalizedBounds.autoScale nb)
           (1.0 + (0.5 - 0.125) / 0.4 * 0.2)%Q
    /\ jeq (NormalizedBounds.autoScale nb) 1.1875%Q.
Proof.
  intros vw vh. cbv zeta. vm_compute. repeat split; reflexivity.
Qed.

(** Scenario A with the rounding of binary64: the width ratio is exactly
    0.125 and the auto-scale exactly 1.1875 there too. *)
Example scenarioA_binary64 :
  (240 / 1920 = 0.125
   /\ Binary64.autoScale (240 / 1920) = 1.1875)%float.
Proof. split; vm_compute; reflexivity. Qed.

End Normalisation.

(** ** The auto-scale heuristic *)

Section AutoScale.

Import EffectProcessor.
Local Open Scope Q_scope.

Lemma clampScale_range (t : Q) : 1.0 <= clampScale t <= 2.5.
Proof.
  unfold clampScale. case_Qltb t 2.5; cbv zeta.
  - case_Qltb 1.0 t; lra.
  - case_Qltb 1.0 2.5; lra.
Qed.

Lemma clampScale_mono (t1 t2 : Q) : t2 <= t1 -> clampScale t2 <= clampScale t1.
Proof.
  intros Ht. unfold clampScale.
  case_Qltb t1 2.5; case_Qltb t2 2.5; cbv zeta;
    repeat match goal with
           | |- context [Qltb ?a ?b] => case_Qltb a b
           end; lra.
Qed.

Lemma clampScale_inside (t : Q) : 1.0 <= t <= 2.5 -> clampScale t == t.
Proof.
  intros [Hlo Hhi]. unfold clampScale.
  case_Qltb t 2.5; cbv zeta;
    repeat match goal with
           | |- context [Qltb ?a ?b] => case_Qltb a b
           end; lra.
Qed.

Lemma clampScale_max_min (t : Q) : clampScale t == Qmax 1.0 (Qmin 2.5 t).
Proof.
  unfold clampScale.
  destruct (Q.min_spec 2.5 t) as [[H1 E1] | [H1 E1]];
    destruct (Q.max_spec 1.0 (Qmin 2.5 t)) as [[H2 E2] | [H2 E2]];
    rewrite E2; rewrite E1 in *;
    case_Qltb t 2.5; cbv zeta;
    repeat match goal with
           | |- context [Qltb ?a ?b] => case_Qltb a b
           end; lra.
Qed.

(** Divisions by the constants of the tiers, as products. *)
Ltac tier_constants :=
  unfold Qdiv in *;
  change (/ 0.01) with 100 in *;
  change (/ 0.09) with (100 # 9) in *;
  change (/ 0.4) with (10 # 4) in *.

Lemma autoScaleTier_mono (r1 r2 : Q) :
  r1 <= r2 -> Spec.autoScaleTier r2 <= Spec.autoScaleTier r1.
Proof.
  intros Hr. unfold Spec.autoScaleTier.
  repeat match goal with
         | |- context [Qltb ?a ?b] => case_Qltb a b
         end; tier_constants; lra.
Qed.

Lemma autoScaleTier_range (r : Q) :
  0 < r -> 1.0 <= Spec.autoScaleTier r <= 2.5.
Proof.
  intros Hr. unfold Spec.autoScaleTier.
  repeat match goal with
         | |- context [Qltb ?a ?b] => case_Qltb a b
         end; tier_constants; lra.
Qed.

Lemma clamp_Num (t : Q) :
  Math_max (Num 1.0) (Math_min (Num 2.5) (Num t)) = Num (clampScale t).
Proof.
  unfold clampScale, Math_min. simpl jlt.
  destruct (Qltb t 2.5); unfold Math_max; simpl jlt;
    match goal with
    | |- context [Qltb ?a ?b] => destruct (Qltb a b); reflexivity
    end.
Qed.

(** On a number, the code computes the tier of the table and clamps it. *)
Lemma autoScale_Num (r : Q) :
  autoScale (Num r) = Num (clampScale (Spec.autoScaleTier r)).
Proof.
  unfold autoScale, Spec.autoScaleTier. simpl jlt.
  destruct (Qltb r 0.01); [apply clamp_Num |].
  destruct (Qltb r 0.1); [apply clamp_Num |].
  destruct (Qltb r 0.5); apply clamp_Num.
Qed.

(** C3. [autoScale] does not increase when the effective ratio grows
    ([0 < r1 <= r2] gives [autoScale r1 >= autoScale r2]), and for a ratio
    in (0, 1] it is the value of the four tiers, clamped to [1.0, 2.5],
    and lies in [1.0, 2.5]. *)
Theorem autoScale_monotone_bounded :
  (forall r1 r2 : Q,
      0 < r1 -> r1 <= r2 -> jge (autoScale r1) (autoScale r2) = true)
  /\ (forall r : Q,
         0 < r -> r <= 1 ->
         exists a : Q,
           autoScale r = Num a
           /\ a == Qmax 1.0 (Qmin 2.5 (Spec.autoScaleTier r))
           /\ a == Spec.autoScaleTier r
           /\ 1.0 <= a <= 2.5).
Proof.
  split.
  - intros r1 r2 H0 Hle. rewrite !autoScale_Num. unfold jge; simpl.
    apply Qle_bool_iff, clampScale_mono, autoScaleTier_mono, Hle.
  - intros r H0 H1. exists (clampScale (Spec.autoScaleTier r)).
    split; [apply autoScale_Num |].
    split; [apply clampScale_max_min |].
    split; [apply clampScale_inside, autoScaleTier_range, H0 |].
    apply clampScale_range.
Qed.

Lemma autoScale_monotone_bounded_witness :
  jge (autoScale 0.05) (autoScale 0.3) = true
  /\ exists a : Q,
      autoScale 0.125 = Num a
      /\ a == Qmax 1.0 (Qmin 2.5 (Spec.autoScaleTier 0.125))
      /\ a == Spec.autoScaleTier 0.125
      /\ 1.0 <= a <= 2.5.
Proof.
  split.
  - apply (proj1 autoScale_monotone_bounded 0.05 0.3); lra.
  - apply (proj2 autoScale_monotone_bounded 0.125); lra.
Defined.

End AutoScale.

Section Anchor.

Import EffectProcessor.
Local Open Scope Q_scope.

Lemma unit_ratio (c f : Q) : 0 < f -> 0 <= c -> c <= f -> 0 <= c / f <= 1.
Proof.
  intros Hf H0 H1. split.
  - apply Qle_shift_div_l; lra.
  - apply Qle_shift_div_r; lra.
Qed.

(** C6. For a box inside a frame of positive size ([x >= 0], [y >= 0],
    [width > 0], [height > 0], [x+width <= frameWidth],
    [y+height <= frameHeight]) the anchor of [normalizeCoordinates],
    [anchorX = (x + width/2)/frameWidth] and
    [anchorY = (y + height/2)/frameHeight], lies in the unit square. *)
Theorem normalizeCoordinates_anchor_unit :
  forall (x y w h fw fh : Q) (vw vh : jsnum),
    0 <= x -> 0 <= y -> 0 < w -> 0 < h ->
    x + w <= fw -> y + h <= fh -> 0 < fw -> 0 < fh ->
    let nb := normalizeCoordinates (Bounds.mk x y w h) fw fh vw vh in
    exists ax ay : Q,
      NormalizedBounds.anchorX nb = Num ax
      /\ NormalizedBounds.anchorY nb = Num ay
      /\ ax == (x + w / 2) / fw
      /\ ay == (y + h / 2) / fh
      /\ 0 <= ax <= 1
      /\ 0 <= ay <= 1.
Proof.
  intros x y w h fw fh vw vh Hx Hy Hw Hh Hxw Hyh Hfw Hfh nb.
  assert (Hw2 : w / 2 == w * (1 # 2)) by (unfold Qdiv; reflexivity).
  assert (Hh2 : h / 2 == h * (1 # 2)) by (unfold Qdiv; reflexivity).
  exists ((x + w / 2) / fw), ((y + h / 2) / fh).
  split; [| split].
  - subst nb. unfold normalizeCoordinates. simpl NormalizedBounds.anchorX.
    simpl Bounds.x. simpl Bounds.width.
    change (jdiv (Num w) (Num 2)) with (Num (w / 2)).
    change (jadd (Num x) (Num (w / 2))) with (Num (x + w / 2)).
    apply jdiv_Num. intro E; lra.
  - subst nb. unfold normalizeCoordinates. simpl NormalizedBounds.anchorY.
    simpl Bounds.y. simpl Bounds.height.
    change (jdiv (Num h) (Num 2)) with (Num (h / 2)).
    change (jadd (Num y) (Num (h / 2))) with (Num (y + h / 2)).
    apply jdiv_Num. intro E; lra.
  - split; [reflexivity |]. split; [reflexivity |].
    split; apply unit_ratio; lra.
Qed.

Lemma normalizeCoordinates_anchor_unit_witness :
  exists ax ay : Q,
    NormalizedBounds.anchorX
      (normalizeCoordinates (Bounds.mk 640 320 240 48) 1920 1080 1920 1080)
    = Num ax
    /\ NormalizedBounds.anchorY
         (normalizeCoordinates (Bounds.mk 640 320 240 48) 1920 1080 1920 1080)
       = Num ay
    /\ ax == (640 + 240 / 2) / 1920
    /\ ay == (320 + 48 / 2) / 1080
    /\ 0 <= ax <= 1
    /\ 0 <= ay <= 1.
Proof.
  apply (normalizeCoordinates_anchor_unit
           640 320 240 48 1920 1080 (Num 1920) (Num 1080)); lra.
Defined.

End Anchor.

(** ** Progress timing *)

Section Progress.

Import EffectProcessor.
Local Open Scope Q_scope.

Lemma jeq_Num_inv (a : jsnum) (q : Q) :
  jeq a (Num q) -> exists p : Q, a = Num p /\ p == q.
Proof.
  destruct a as [p | s |]; simpl; intros H; try contradiction.
  exists p. split; [reflexivity | exact H].
Qed.

(** The cubic of the code on a number is the cubic of the specification. *)
Lemma easeInOutCubic_Num (x : Q) :
  jeq (easeInOutCubic (Num x)) (Num (Spec.easeInOutCubic x)).
Proof.
  unfold easeInOutCubic, Spec.easeInOutCubic. simpl jlt.
  destruct (Qltb x 0.5); simpl.
  - ring.
  - unfold Qdiv. ring.
Qed.

Lemma spec_cubic_range (x : Q) :
  0 <= x -> x <= 1 -> 0 <= Spec.easeInOutCubic x <= 1.
Proof.
  intros H0 H1. unfold Spec.easeInOutCubic.
  case_Qltb x 0.5.
  - assert (0 <= x * x) by nra.
    assert (x * x <= 0.25) by nra.
    assert (0 <= x * x * x) by nra.
    assert (x * x * x <= 0.125) by nra.
    lra.
  - unfold Qdiv. change (/ 2) with (1 # 2).
    set (v := -2 * x + 2).
    assert (Hv0 : 0 <= v) by (unfold v; lra).
    assert (Hv1 : v <= 1) by (unfold v; lra).
    assert (0 <= v * v) by nra.
    assert (v * v <= 1) by nra.
    assert (0 <= v * v * v) by nra.
    assert (v * v * v <= 1) by nra.
    lra.
Qed.

(** The normalised time [u] of a window whose duration is not zero is a
    number, and the code branches on it as the specification does. *)
Lemma computeEffectProgress_Num (t s e : Q) :
  ~ s == e ->
  let u := (t - s) / (e - s) in
  computeEffectProgress (Num t) (Num s) (Num e) (Num 0.25) (Num 0.25)
  = if Qle_bool u 0 then Num 0
    else if Qle_bool 1 u then Num 0
    else if Qltb u 0.25 then easeInOutCubic (Num (u / 0.25))
    else if Qltb 0.75 u then easeInOutCubic (Num ((1 - u) / 0.25))
    else Num 1.
Proof.
  intros Hse u. unfold computeEffectProgress.
  change (jsub (Num e) (Num s)) with (Num (e - s)).
  change (jsub (Num t) (Num s)) with (Num (t - s)).
  rewrite jdiv_Num by (intro E; lra).
  fold u. reflexivity.
Qed.

Lemma computeEffectProgress_spec (t s e : Q) :
  ~ s == e ->
  jeq (computeEffectProgress (Num t) (Num s) (Num e) (Num 0.25) (Num 0.25))
      (Num (Spec.progress ((t - s) / (e - s)))).
Proof.
  intros Hse. rewrite (computeEffectProgress_Num t s e Hse). cbv zeta.
  set (u := (t - s) / (e - s)). unfold Spec.progress.
  destruct (Qle_bool u 0); simpl orb; [reflexivity |].
  destruct (Qle_bool 1 u); [reflexivity |].
  destruct (Qltb u 0.25); [apply easeInOutCubic_Num |].
  destruct (Qltb 0.75 u); [apply easeInOutCubic_Num | reflexivity].
Qed.

Lemma spec_progress_range (u : Q) : 0 <= Spec.progress u <= 1.
Proof.
  unfold Spec.progress.
  case_Qle_bool u 0; simpl orb; cbv iota; [lra |].
  case_Qle_bool 1 u; [lra |].
  case_Qltb u 0.25.
  - apply spec_cubic_range; unfold Qdiv; change (/ 0.25) with (100 # 25); lra.
  - case_Qltb 0.75 u; [| lra].
    apply spec_cubic_range; unfold Qdiv; change (/ 0.25) with (100 # 25); lra.
Qed.

Lemma jeq_Num_trans (a : jsnum) (q r : Q) :
  jeq a (Num q) -> q == r -> jeq a (Num r).
Proof.
  destruct a as [p | b |]; simpl; intros H E; try contradiction.
  rewrite H. exact E.
Qed.

Lemma spec_progress_rest (u : Q) :
  u <= 0 \/ 1 <= u -> Spec.progress u == 0.
Proof.
  intros H. unfold Spec.progress.
  case_Qle_bool u 0; simpl orb; cbv iota; [reflexivity |].
  case_Qle_bool 1 u; [reflexivity | lra].
Qed.

Lemma spec_progress_ease_in (u : Q) :
  0 < u -> u < 0.25 ->
  Spec.progress u == Spec.easeInOutCubic (u / 0.25).
Proof.
  intros H0 H1. unfold Spec.progress.
  case_Qle_bool u 0; simpl orb; cbv iota; [lra |].
  case_Qle_bool 1 u; [lra |].
  case_Qltb u 0.25; [reflexivity | lra].
Qed.

Lemma spec_progress_ease_out (u : Q) :
  0.75 < u -> u < 1 ->
  Spec.progress u == Spec.easeInOutCubic ((1 - u) / 0.25).
Proof.
  intros H0 H1. unfold Spec.progress.
  case_Qle_bool u 0; simpl orb; cbv iota; [lra |].
  case_Qle_bool 1 u; [lra |].
  case_Qltb u 0.25; [lra |].
  case_Qltb 0.75 u; [reflexivity | lra].
Qed.

Lemma spec_progress_hold (u : Q) :
  0.25 <= u -> u <= 0.75 -> Spec.progress u == 1.
Proof.
  intros H0 H1. unfold Spec.progress.
  case_Qle_bool u 0; simpl orb; cbv iota; [lra |].
  case_Qle_bool 1 u; [lra |].
  case_Qltb u 0.25; [lra |].
  case_Qltb 0.75 u; [lra | reflexivity].
Qed.

(** C5. For a window with [end > start] and ease fractions 0.25 the
    progress is the piecewise function of [u = (t-start)/(end-start)]:
    0 for [u <= 0] or [u >= 1], [easeInOutCubic(u/0.25)] for
    [0 < u < 0.25], [easeInOutCubic((1-u)/0.25)] for [0.75 < u < 1], and 1
    in between; it lies in [0, 1], is 0 at [t = start] and at [t = end],
    and both easing pieces reach the hold value 1 at their boundary. *)
Theorem computeEffectProgress_piecewise :
  forall t s e : Q,
    s < e ->
    let u := (t - s) / (e - s) in
    let p := computeEffectProgress (Num t) (Num s) (Num e)
                                   (Num 0.25) (Num 0.25) in
    jeq p (Num (Spec.progress u))
    /\ (u <= 0 \/ 1 <= u -> jeq p (Num 0))
    /\ (0 < u -> u < 0.25 -> jeq p (Num (Spec.easeInOutCubic (u / 0.25))))
    /\ (0.75 < u -> u < 1 ->
        jeq p (Num (Spec.easeInOutCubic ((1 - u) / 0.25))))
    /\ (0.25 <= u -> u <= 0.75 -> jeq p (Num 1))
    /\ jle (Num 0) p = true
    /\ jle p (Num 1) = true
    /\ computeEffectProgress (Num s) (Num s) (Num e) (Num 0.25) (Num 0.25)
       = Num 0
    /\ computeEffectProgress (Num e) (Num s) (Num e) (Num 0.25) (Num 0.25)
       = Num 0
    /\ jeq (easeInOutCubic (Num (0.25 / 0.25))) (Num 1)
    /\ jeq (easeInOutCubic (Num ((1 - 0.75) / 0.25))) (Num 1).
Proof.
  intros t s e Hse u p.
  assert (Hne : ~ s == e) by lra.
  assert (Hp : jeq p (Num (Spec.progress u)))
    by (apply computeEffectProgress_spec, Hne).
  split; [exact Hp |].
  split; [intros H; apply (jeq_Num_trans _ _ _ Hp), spec_progress_rest, H |].
  split; [intros H0 H1;
          apply (jeq_Num_trans _ _ _ Hp), spec_progress_ease_in; assumption |].
  split; [intros H0 H1;
          apply (jeq_Num_trans _ _ _ Hp), spec_progress_ease_out; assumption |].
  split; [intros H0 H1;
          apply (jeq_Num_trans _ _ _ Hp), spec_progress_hold; assumption |].
  destruct (jeq_Num_inv _ _ Hp) as [q [Eq Hq]].
  pose proof (spec_progress_range u) as [Hlo Hhi].
  split; [rewrite Eq; simpl; apply Qle_bool_iff; rewrite Hq; exact Hlo |].
  split; [rewrite Eq; simpl; apply Qle_bool_iff; rewrite Hq; exact Hhi |].
  assert (Hd : ~ e - s == 0) by (intro E; lra).
  split.
  { rewrite (computeEffectProgress_Num s s e Hne). cbv zeta.
    assert (E0 : (s - s) / (e - s) == 0) by (field; exact Hd).
    case_Qle_bool ((s - s) / (e - s)) 0; [reflexivity | lra]. }
  split.
  { rewrite (computeEffectProgress_Num e s e Hne). cbv zeta.
    assert (E1 : (e - s) / (e - s) == 1) by (field; exact Hd).
    case_Qle_bool ((e - s) / (e - s)) 0; [reflexivity |].
    case_Qle_bool 1 ((e - s) / (e - s)); [reflexivity | lra]. }
  split; vm_compute; reflexivity.
Qed.

Lemma computeEffectProgress_piecewise_witness :
  jeq (computeEffectProgress (Num 5.2) (Num 5) (Num 7) (Num 0.25) (Num 0.25))
      (Num (Spec.progress ((5.2 - 5) / (7 - 5)))).
Proof.
  assert (H : 5 < 7) by lra.
  exact (proj1 (computeEffectProgress_piecewise 5.2 5 7 H)).
Defined.

End Progress.

(** ** The order of the numbers *)

Section JsNumOrder.

Local Open Scope Q_scope.

Lemma Qeq_bool_false (a b : Q) : Qeq_bool a b = false <-> ~ a == b.
Proof.
  rewrite <- not_true_iff_false, Qeq_bool_iff. reflexivity.
Qed.

(** Turns the boolean comparisons of rationals in the context and the goal
    into order facts, after a case analysis on the numbers. *)
Ltac order_facts :=
  repeat match goal with
         | H : Qltb _ _ = true |- _ => apply Qltb_lt in H
         | H : Qltb _ _ = false |- _ => apply Qltb_ge in H
         | H : Qle_bool _ _ = true |- _ => apply Qle_bool_iff in H
         | H : Qle_bool _ _ = false |- _ => apply Qle_bool_gt in H
         | H : Qeq_bool _ _ = true |- _ => apply Qeq_bool_iff in H
         | H : Qeq_bool _ _ = false |- _ => apply Qeq_bool_false in H
         | |- Qltb _ _ = true => apply Qltb_lt
         | |- Qltb _ _ = false => apply Qltb_ge
         | |- Qle_bool _ _ = true => apply Qle_bool_iff
         | |- Qle_bool _ _ = false => apply Qle_bool_gt
         end.

Ltac by_cases :=
  simpl in *; try discriminate; try reflexivity;
  repeat match goal with
         | b : bool |- _ => destruct b; simpl in *; try discriminate
         end;
  try reflexivity; order_facts; try lra.

Lemma jlt_false_jle (a b : jsnum) :
  is_NaN a = false -> is_NaN b = false -> jlt a b = false -> jle b a = true.
Proof. destruct a, b; intros; by_cases. Qed.

Lemma jlt_trans (a b c : jsnum) :
  jlt a b = true -> jlt b c = true -> jlt a c = true.
Proof. destruct a, b, c; intros; by_cases. Qed.

Lemma jle_jlt_trans (a b c : jsnum) :
  jle a b = true -> jlt b c = true -> jlt a c = true.
Proof. destruct a, b, c; intros; by_cases. Qed.

Lemma jle_trans (a b c : jsnum) :
  jle a b = true -> jle b c = true -> jle a c = true.
Proof. destruct a, b, c; intros; by_cases. Qed.

Lemma jle_jlt_false (a b : jsnum) : jle a b = true -> jlt b a = false.
Proof. destruct a, b; intros; by_cases. Qed.

Lemma jle_neq_jlt (a b : jsnum) :
  jle a b = true -> jeqb b a = false -> jlt a b = true.
Proof.
  destruct a as [p | s |], b as [q | s' |]; intros Hle Hne; by_cases.
Qed.

Lemma jle_not_NaN_l (a b : jsnum) : jle a b = true -> is_NaN a = false.
Proof. destruct a, b; intros; by_cases. Qed.

End JsNumOrder.

(** ** Active effects and overlap resolution *)

Section Overlap.

Import EffectProcessor.
Context {E : Type} `{Timed E}.

Lemma getActiveEffects_In (effects : list E) (t : jsnum) (e : E) :
  In e (getActiveEffects effects t)
  <-> In e effects /\ jle (start e) t = true /\ jle t (end_ e) = true.
Proof.
  unfold getActiveEffects. rewrite filter_In, andb_true_iff.
  unfold jge. reflexivity.
Qed.

Lemma getActiveEffects_comparable (effects : list E) (t : jsnum) :
  startsComparable (getActiveEffects effects t).
Proof.
  apply Forall_forall. intros e He.
  apply getActiveEffects_In in He. destruct He as [_ [Hs _]].
  exact (jle_not_NaN_l _ _ Hs).
Qed.

(** The fold keeps the first of the effects of latest start: with the
    list split as [pre ++ latest :: mid ++ rest], [pre] strictly earlier
    than [latest] and [mid] not later, the result splits the whole list the
    same way. *)
Lemma fold_later_split (rest : list E) :
  forall (pre mid : list E) (latest : E),
    startsComparable (latest :: rest) ->
    (forall a, In a pre -> jlt (start a) (start latest) = true) ->
    (forall a, In a mid -> jle (start a) (start latest) = true) ->
    exists pre' post,
      pre ++ latest :: mid ++ rest
      = pre' ++ fold_left later rest latest :: post
      /\ (forall a, In a pre' ->
                    jlt (start a) (start (fold_left later rest latest)) = true)
      /\ (forall a, In a post ->
                    jle (start a) (start (fold_left later rest latest)) = true).
Proof.
  induction rest as [| e rest IH]; intros pre mid latest Hc Hpre Hmid.
  - exists pre, mid. simpl. rewrite app_nil_r. auto.
  - inversion Hc as [| ? ? Hl Hrest]; subst.
    inversion Hrest as [| ? ? He Hrest']; subst.
    simpl fold_left. unfold later at 2 4 6. unfold jgt.
    destruct (jlt (start latest) (start e)) eqn:Hlt.
    + destruct (IH (pre ++ latest :: mid) [] e) as [pre' [post [Eq [H1 H2]]]].
      * constructor; assumption.
      * intros a Ha. apply in_app_or in Ha. destruct Ha as [Ha | [Ha | Ha]].
        -- exact (jlt_trans _ _ _ (Hpre a Ha) Hlt).
        -- subst a. exact Hlt.
        -- exact (jle_jlt_trans _ _ _ (Hmid a Ha) Hlt).
      * intros a [].
      * exists pre', post. split; [| split; assumption].
        rewrite <- Eq. simpl. rewrite <- app_assoc. reflexivity.
    + destruct (IH pre (mid ++ [e]) latest) as [pre' [post [Eq [H1 H2]]]].
      * constructor; assumption.
      * exact Hpre.
      * intros a Ha. apply in_app_or in Ha. destruct Ha as [Ha | [Ha | []]].
        -- exact (Hmid a Ha).
        -- subst a. exact (jlt_false_jle _ _ Hl He Hlt).
      * exists pre', post. split; [| split; assumption].
        rewrite <- Eq. rewrite <- app_assoc. reflexivity.
Qed.

Lemma resolveZoomEffect_split (effects : list E) :
  effects <> [] ->
  startsComparable effects ->
  exists pre e post,
    effects = pre ++ e :: post
    /\ resolveZoomEffect effects = Some e
    /\ (forall a, In a pre -> jlt (start a) (start e) = true)
    /\ (forall a, In a post -> jle (start a) (start e) = true).
Proof.
  intros Hne Hc. destruct effects as [| first others]; [contradiction |].
  destruct (fold_later_split others [] [] first Hc) as [pre [post [Eq [H1 H2]]]].
  - intros a [].
  - intros a [].
  - exists pre, (fold_left later others first), post.
    split; [exact Eq |]. split; [reflexivity |]. split; assumption.
Qed.

Lemma distinctStarts_after (pre post : list E) (e : E) :
  distinctStarts (pre ++ e :: post) ->
  forall a, In a post -> jeqb (start e) (start a) = false.
Proof.
  unfold distinctStarts. induction pre as [| x pre IH]; simpl; intros Hd a Ha.
  - inversion Hd as [| ? ? Hx _]; subst.
    rewrite Forall_forall in Hx. exact (Hx a Ha).
  - inversion Hd; subst. apply IH; assumption.
Qed.

End Overlap.

Section Resolver.

Import EffectProcessor.
Context {E : Type} `{Timed E}.

(** C4. [getActiveEffects] keeps exactly the effects with
    [start <= t <= end], both ends included; [resolveZoomEffect] of the
    empty list is [null]; and on a non-empty list of active effects with
    pairwise distinct starts it returns the one effect whose start is
    later than the start of every other. *)
Theorem resolveZoomEffect_latest_start :
  (forall (effects : list E) (t : jsnum) (e : E),
      In e (getActiveEffects effects t)
      <-> In e effects /\ jle (start e) t = true /\ jle t (end_ e) = true)
  /\ (forall (effects : list E) (t : jsnum),
         getActiveEffects effects t
         = filter (fun e => jle (start e) t && jle t (end_ e)) effects)
  /\ resolveZoomEffect (@nil E) = None
  /\ (forall (effects : list E) (t : jsnum),
         let active := getActiveEffects effects t in
         active <> [] ->
         distinctStarts active ->
         exists pre e post,
           active = pre ++ e :: post
           /\ resolveZoomEffect active = Some e
           /\ forall a, In a (pre ++ post) ->
                        jlt (start a) (start e) = true).
Proof.
  split; [exact getActiveEffects_In |].
  split; [intros effects t; reflexivity |].
  split; [reflexivity |].
  intros effects t active Hne Hd.
  destruct (resolveZoomEffect_split active Hne
              (getActiveEffects_comparable effects t))
    as [pre [e [post [Eq [Hr [Hpre Hpost]]]]]].
  exists pre, e, post. split; [exact Eq |]. split; [exact Hr |].
  intros a Ha. apply in_app_or in Ha. destruct Ha as [Ha | Ha].
  - exact (Hpre a Ha).
  - apply jle_neq_jlt; [exact (Hpost a Ha) |].
    rewrite Eq in Hd. exact (distinctStarts_after pre post e Hd a Ha).
Qed.

(** C9. On a non-empty list of active effects [resolveZoomEffect] returns
    the first effect, in the order of the list, among those of latest
    start: every effect before it starts strictly earlier and no effect
    after it starts later, so a tie goes to the effect that comes first. *)
Theorem resolveZoomEffect_first_of_ties :
  (forall active : list E,
      active <> [] ->
      startsComparable active ->
      exists pre e post,
        active = pre ++ e :: post
        /\ resolveZoomEffect active = Some e
        /\ (forall a, In a pre -> jlt (start a) (start e) = true)
        /\ (forall a, In a post -> jle (start a) (start e) = true))
  /\ (forall (effects : list E) (t : jsnum),
         startsComparable (getActiveEffects effects t)).
Proof.
  split.
  - exact resolveZoomEffect_split.
  - exact getActiveEffects_comparable.
Qed.

End Resolver.

Section ResolverWitnesses.

Import EffectProcessor.

Lemma resolveZoomEffect_latest_start_witness :
  exists pre e post,
    getActiveEffects overlapping (Num 4) = pre ++ e :: post
    /\ resolveZoomEffect (getActiveEffects overlapping (Num 4)) = Some e
    /\ forall a, In a (pre ++ post) -> jlt (start a) (start e) = true.
Proof.
  apply (proj2 (proj2 (proj2 (@resolveZoomEffect_latest_start
                                DisplayEffect.t DisplayEffect_Timed)))
           overlapping (Num 4)).
  - vm_compute. discriminate.
  - vm_compute. repeat constructor.
Defined.

Lemma resolveZoomEffect_first_of_ties_witness :
  tied <> []
  /\ startsComparable tied
  /\ exists pre e post,
      tied = pre ++ e :: post
      /\ resolveZoomEffect tied = Some e
      /\ (forall a, In a pre -> jlt (start a) (start e) = true)
      /\ (forall a, In a post -> jle (start a) (start e) = true).
Proof.
  split; [discriminate |]. split; [repeat constructor |].
  apply (proj1 (@resolveZoomEffect_first_of_ties
                  DisplayEffect.t DisplayEffect_Timed) tied).
  - discriminate.
  - repeat constructor.
Defined.

Example resolveZoomEffect_overlapping :
  resolveZoomEffect (getActiveEffects overlapping (Num 4))
  = Some (window 3 6).
Proof. reflexivity. Qed.

Example resolveZoomEffect_tied :
  resolveZoomEffect tied = Some (window 3 6).
Proof. reflexivity. Qed.

End ResolverWitnesses.

(** ** Windows of non-positive duration *)

Section Duration.

Import EffectProcessor VideoEffectPreview.
Local Open Scope Q_scope.

Lemma window_reversed_inactive (s e t : jsnum) :
  jlt e s = true -> jge t s && jle t e = false.
Proof.
  intros Hrev. unfold jge.
  destruct (jle s t) eqn:Hs; [| reflexivity].
  destruct (jle t e) eqn:He; [| reflexivity].
  pose proof (jle_jlt_false _ _ (jle_trans _ _ _ Hs He)) as Hno.
  rewrite Hno in Hrev. discriminate.
Qed.

(** C2, as the code has it.  [computeEffectProgress] has no check of the
    duration and no error result.  For a window of negative duration
    ([end < start]) it evaluates the same piecewise function of
    [u = (t-start)/(end-start)] and returns a progress in [0, 1]; such an
    effect is active at no time, so the render step never applies a
    transform for it, and writes the identity transform when it is the
    only effect. *)
Theorem negative_duration_never_active :
  (forall (effects : list NormalizedEffect.t) (t : jsnum)
          (effect : NormalizedEffect.t),
      jlt (end_ effect) (start effect) = true ->
      ~ In effect (getActiveEffects effects t))
  /\ (forall (effect : NormalizedEffect.t) (t : jsnum),
         jlt (end_ effect) (start effect) = true ->
         renderFrame [effect] t = Applied identity)
  /\ (forall t s e : Q,
         e < s ->
         let p := computeEffectProgress (Num t) (Num s) (Num e)
                                        (Num 0.25) (Num 0.25) in
         jeq p (Num (Spec.progress ((t - s) / (e - s))))
         /\ jle (Num 0) p = true
         /\ jle p (Num 1) = true).
Proof.
  split; [| split].
  - intros effects t effect Hrev Hin.
    unfold getActiveEffects in Hin. apply filter_In in Hin.
    destruct Hin as [_ Hact].
    rewrite (window_reversed_inactive _ _ t Hrev) in Hact. discriminate.
  - intros effect t Hrev.
    assert (Hnone : getActiveEffects [effect] t = []).
    { unfold getActiveEffects. cbn [filter].
      rewrite (window_reversed_inactive _ _ t Hrev). reflexivity. }
    unfold renderFrame. rewrite Hnone. reflexivity.
  - intros t s e Hrev p.
    assert (Hne : ~ s == e) by lra.
    assert (Hp : jeq p (Num (Spec.progress ((t - s) / (e - s)))))
      by (apply computeEffectProgress_spec, Hne).
    split; [exact Hp |].
    destruct (jeq_Num_inv _ _ Hp) as [q [Eq Hq]].
    pose proof (spec_progress_range ((t - s) / (e - s))) as [Hlo Hhi].
    split; rewrite Eq; simpl; apply Qle_bool_iff; rewrite Hq; assumption.
Qed.

Lemma negative_duration_never_active_witness :
  jlt (Num 5) (Num 10) = true
  /\ renderFrame (handleMetadata [zoomOn 10 5] (Num 1920) (Num 1080)) (Num 8)
     = Applied identity.
Proof.
  split; [reflexivity |].
  apply (proj1 (proj2 negative_duration_never_active)). reflexivity.
Defined.

(** C2, as the specification words it, fails: a window of zero duration
    is active at [t = start = end]; there [u = 0/0] is NaN, no comparison
    holds, [computeEffectProgress] returns 1 and the render step applies
    the full zoom (scale 1.1875 for the box of scenario A) instead of the
    identity.  For a negative duration [computeEffectProgress] returns an
    ordinary progress as well (1 for start 10, end 5 at t = 8). *)
Lemma zero_duration_full_zoom :
  jle (end_ (zoomOn 5 5)) (start (zoomOn 5 5)) = true
  /\ computeEffectProgress (Num 5) (Num 5) (Num 5) (Num 0.25) (Num 0.25)
     = Num 1
  /\ computeEffectProgress (Num 8) (Num 10) (Num 5) (Num 0.25) (Num 0.25)
     = Num 1
  /\ (exists tr : Transform.t,
         renderFrame (handleMetadata [zoomOn 5 5] (Num 1920) (Num 1080))
                     (Num 5)
         = Applied tr
         /\ jeq (Transform.scale tr) (Num 1.1875)
         /\ jeq (Transform.translateX tr) (Num (-142.5))
         /\ jeq (Transform.translateY tr) (Num (-64.5)))
  /\ ~ (forall (effect : DisplayEffect.t) (t : jsnum),
           jle (end_ effect) (start effect) = true ->
           renderFrame (handleMetadata [effect] (Num 1920) (Num 1080)) t
           = Applied identity).
Proof.
  split; [reflexivity |]. split; [reflexivity |]. split; [reflexivity |].
  split.
  - eexists. split; [vm_compute; reflexivity |].
    repeat split; vm_compute; reflexivity.
  - intros Hskip.
    specialize (Hskip (zoomOn 5 5) (Num 5) eq_refl).
    vm_compute in Hskip. discriminate Hskip.
Qed.

(** The same two evaluations on binary64 floats: [0/0] is NaN and the
    progress is 1. *)
Example zero_duration_binary64 :
  forall Math_pow : float -> float -> float,
    (PrimFloat.is_nan ((5 - 5) / (5 - 5)) = true
     /\ Binary64.computeEffectProgress Math_pow 5 5 5 0.25 0.25 = 1
     /\ Binary64.computeEffectProgress Math_pow 8 10 5 0.25 0.25 = 1)%float.
Proof. intros Math_pow. repeat split; vm_compute; reflexivity. Qed.

End Duration.

(** ** Purity of the generated instructions *)

Section InstructionPurity.

Import InstructionGenerator.
Local Open Scope string_scope.

(** C1. Every instruction that [generateZoomInstructions] produces passes
    [checkInstructionPurity]: it is clean, with no violation; its keys are
    exactly [effect], [startTimeMs], [durationMs], [frame] and
    [boundingBox], with [width], [height] inside [frame] and [x], [y],
    [width], [height] inside [boundingBox], and it has no scale, anchor,
    easing or ratio field. *)
Theorem generateZoomInstructions_pure :
  forall (displayEffects : list DisplayEffect.t) (frame : Frame.t),
    Forall
      (fun instruction =>
         Purity.clean (checkInstructionPurity instruction) = true
         /\ Purity.violations (checkInstructionPurity instruction) = []
         /\ keys instruction = allowedKeys
         /\ option_map keys (field "frame" instruction)
            = Some allowedFrameKeys
         /\ option_map keys (field "boundingBox" instruction)
            = Some allowedBoundingBoxKeys
         /\ Forall (fun key => field key instruction = None) previewOnlyKeys)
      (generateZoomInstructions displayEffects frame).
Proof.
  intros displayEffects frame. unfold generateZoomInstructions.
  induction displayEffects as [| effect rest IH]; simpl flat_map.
  - constructor.
  - destruct (zoomBounds effect) as [bounds |]; simpl app; [| exact IH].
    constructor; [| exact IH].
    repeat split; repeat constructor.
Qed.

(** One instruction comes out for each effect with bounds and zoom
    enabled. *)
Lemma generateZoomInstructions_length
    (displayEffects : list DisplayEffect.t) (frame : Frame.t) :
  List.length (generateZoomInstructions displayEffects frame)
  = List.length (filter (fun effect =>
                           match zoomBounds effect with
                           | Some _ => true
                           | None => false
                           end) displayEffects).
Proof.
  unfold generateZoomInstructions.
  induction displayEffects as [| effect rest IH]; simpl; [reflexivity |].
  destruct (zoomBounds effect); simpl; rewrite IH; reflexivity.
Qed.

Example generateZoomInstructions_scenarioA :
  generateZoomInstructions [zoomOn 2 5; window 1 3]
                           (Frame.mk (Num 1920) (Num 1080))
  = [ VObj [("effect", VStr "zoom");
            ("startTimeMs", VNum (Num 2 * Num 1000)%js);
            ("durationMs", VNum ((Num 5 - Num 2) * Num 1000)%js);
            ("frame", VObj [("width", VNum (Num 1920));
                            ("height", VNum (Num 1080))]);
            ("boundingBox", VObj [("x", VNum (Num 640));
                                  ("y", VNum (Num 320));
                                  ("width", VNum (Num 240));
                                  ("height", VNum (Num 48))])] ].
Proof. reflexivity. Qed.

(** An instruction that carries a derived value is reported. *)
Example checkInstructionPurity_leak :
  checkInstructionPurity
    (VObj [("effect", VStr "zoom"); ("scale", VNum (Num 1.5));
           ("frame", VObj [("width", VNum (Num 1920));
                           ("anchorX", VNum (Num 0.5))])])
  = {| Purity.clean := false;
       Purity.violations := ["scale"; "frame.anchorX"] |}.
Proof. reflexivity. Qed.

End InstructionPurity.

(** * The rest of the engine *)

(** ** The easing curves *)

Section Easing.

Import EffectProcessor.
Local Open Scope Q_scope.

Lemma square_nonneg (c : Q) : 0 <= c * c.
Proof. nra. Qed.

Lemma cube_mono (a b : Q) : a <= b -> a * a * a <= b * b * b.
Proof.
  intros Hab.
  pose proof (square_nonneg (a + b * (1 # 2))) as H1.
  pose proof (square_nonneg b) as H2.
  assert (H3 : 0 <= a * a + a * b + b * b) by nra.
  assert (H4 : 0 <= (b - a) * (a * a + a * b + b * b)) by nra.
  nra.
Qed.

Lemma spec_cubic_mono (x y : Q) :
  x <= y -> Spec.easeInOutCubic x <= Spec.easeInOutCubic y.
Proof.
  intros Hxy. unfold Spec.easeInOutCubic.
  case_Qltb x 0.5; case_Qltb y 0.5; unfold Qdiv; change (/ 2) with (1 # 2).
  - pose proof (cube_mono x y Hxy). lra.
  - pose proof (cube_mono x 0.5 ltac:(lra)) as Hx.
    pose proof (cube_mono (-2 * y + 2) 1 ltac:(lra)) as Hy.
    change (0.5 * 0.5 * 0.5) with 0.125 in Hx.
    change (1 * 1 * 1) with 1 in Hy. lra.
  - lra.
  - pose proof (cube_mono (-2 * y + 2) (-2 * x + 2) ltac:(lra)). lra.
Qed.

(** X1. [easeInOutCubic] never decreases, on any two numbers, and sends
    0, 1/2 and 1 to themselves, so it maps [0, 1] into [0, 1]. *)
Theorem easeInOutCubic_monotone :
  (forall x y : Q,
      x <= y ->
      jle (easeInOutCubic (Num x)) (easeInOutCubic (Num y)) = true)
  /\ jeq (easeInOutCubic (Num 0)) (Num 0)
  /\ jeq (easeInOutCubic (Num 0.5)) (Num 0.5)
  /\ jeq (easeInOutCubic (Num 1)) (Num 1).
Proof.
  split; [| repeat split; vm_compute; reflexivity].
  intros x y Hxy.
  destruct (jeq_Num_inv _ _ (easeInOutCubic_Num x)) as [p [Ep Hp]].
  destruct (jeq_Num_inv _ _ (easeInOutCubic_Num y)) as [q [Eq Hq]].
  rewrite Ep, Eq. simpl. apply Qle_bool_iff. rewrite Hp, Hq.
  apply spec_cubic_mono, Hxy.
Qed.

Lemma easeInOutCubic_monotone_witness :
  0.2 <= 0.7
  /\ jle (easeInOutCubic (Num 0.2)) (easeInOutCubic (Num 0.7)) = true.
Proof.
  split; [lra |].
  apply (proj1 easeInOutCubic_monotone 0.2 0.7). lra.
Defined.

Lemma easeInOutQuad_Num (x : Q) : jeq (easeInOutQuad (Num x)) (Num (quadOf x)).
Proof.
  unfold easeInOutQuad, quadOf. simpl jlt.
  destruct (Qltb x 0.5); simpl.
  - ring.
  - unfold Qdiv. ring.
Qed.

Lemma quadOf_range (x : Q) : 0 <= x -> x <= 1 -> 0 <= quadOf x <= 1.
Proof.
  intros H0 H1. unfold quadOf.
  case_Qltb x 0.5; unfold Qdiv; try change (/ 2) with (1 # 2).
  - assert (0 <= x * x) by nra. assert (x * x <= 0.25) by nra. lra.
  - set (v := -2 * x + 2).
    assert (0 <= v) by (unfold v; lra). assert (v <= 1) by (unfold v; lra).
    assert (0 <= v * v) by nra. assert (v * v <= 1) by nra. lra.
Qed.

Lemma quadOf_mono (x y : Q) : 0 <= x -> x <= y -> y <= 1 -> quadOf x <= quadOf y.
Proof.
  intros H0 Hxy H1. unfold quadOf.
  case_Qltb x 0.5; case_Qltb y 0.5; unfold Qdiv; try change (/ 2) with (1 # 2).
  - assert (x * x <= y * y) by nra. lra.
  - assert (x * x <= 0.25) by nra.
    assert ((-2 * y + 2) * (-2 * y + 2) <= 1) by nra. lra.
  - lra.
  - assert ((-2 * y + 2) * (-2 * y + 2) <= (-2 * x + 2) * (-2 * x + 2)) by nra.
    lra.
Qed.

(** X2. On [0, 1] [easeInOutQuad] stays in [0, 1] and never decreases. *)
Theorem easeInOutQuad_unit_interval :
  forall x y : Q,
    0 <= x -> x <= y -> y <= 1 ->
    jle (Num 0) (easeInOutQuad (Num x)) = true
    /\ jle (easeInOutQuad (Num x)) (easeInOutQuad (Num y)) = true
    /\ jle (easeInOutQuad (Num y)) (Num 1) = true.
Proof.
  intros x y H0 Hxy H1.
  destruct (jeq_Num_inv _ _ (easeInOutQuad_Num x)) as [p [Ep Hp]].
  destruct (jeq_Num_inv _ _ (easeInOutQuad_Num y)) as [q [Eq Hq]].
  rewrite Ep, Eq. simpl.
  pose proof (quadOf_range x ltac:(lra) ltac:(lra)) as [Hx0 _].
  pose proof (quadOf_range y ltac:(lra) ltac:(lra)) as [_ Hy1].
  pose proof (quadOf_mono x y H0 Hxy H1) as Hm.
  repeat split; apply Qle_bool_iff; rewrite ?Hp, ?Hq; assumption.
Qed.

Lemma easeInOutQuad_unit_interval_witness :
  jle (Num 0) (easeInOutQuad (Num 0.2)) = true
  /\ jle (easeInOutQuad (Num 0.2)) (easeInOutQuad (Num 0.7)) = true
  /\ jle (easeInOutQuad (Num 0.7)) (Num 1) = true.
Proof.
  apply (easeInOutQuad_unit_interval 0.2 0.7); lra.
Defined.

End Easing.

(** Case analysis on every comparison of rationals in the goal. *)
Ltac case_comparisons :=
  repeat match goal with
         | |- context [Qle_bool ?a ?b] => case_Qle_bool a b
         | |- context [Qltb ?a ?b] => case_Qltb a b
         end.

(** ** Progress, for every argument *)

Section ProgressEverywhere.

Import EffectProcessor.
Local Open Scope Q_scope.

Lemma easeInOutCubic_unit (x : Q) :
  0 <= x -> x <= 1 ->
  exists p : Q, easeInOutCubic (Num x) = Num p /\ 0 <= p <= 1.
Proof.
  intros H0 H1.
  destruct (jeq_Num_inv _ _ (easeInOutCubic_Num x)) as [p [Ep Hp]].
  exists p. split; [exact Ep |]. rewrite Hp. apply spec_cubic_range; assumption.
Qed.

Lemma ratio_unit (a b : Q) : 0 < a -> a < b -> 0 <= a / b /\ a / b <= 1.
Proof.
  intros Ha Hab. split.
  - apply Qle_shift_div_l; lra.
  - apply Qle_shift_div_r; lra.
Qed.

(** The ease-out and hold branches, for [u] strictly between 0 and 1. *)
Lemma ease_out_unit (q : Q) (easeOutPercent : jsnum) :
  0 < q -> q < 1 ->
  exists p : Q,
    (if jgt (Num q) (jsub (Num 1) easeOutPercent)
     then easeInOutCubic (jdiv (jsub (Num 1) (Num q)) easeOutPercent)
     else Num 1) = Num p
    /\ 0 <= p <= 1.
Proof.
  intros H0 H1. destruct easeOutPercent as [g | b |].
  - unfold jgt. simpl jsub. simpl jlt. case_Qltb (1 - g) q.
    + rewrite jdiv_Num by (intro Hg; lra).
      apply easeInOutCubic_unit; apply ratio_unit; lra.
    + exists 1. split; [reflexivity | lra].
  - destruct b; simpl.
    + exists 1. split; [reflexivity | lra].
    + exists 0. split; [vm_compute; reflexivity | lra].
  - simpl. exists 1. split; [reflexivity | lra].
Qed.

(** X3. Whatever its five arguments are (NaN and infinities included, any
    ease fractions, a zero or negative duration), [computeEffectProgress]
    returns a number between 0 and 1, never NaN. *)
Theorem computeEffectProgress_always_unit :
  forall currentTime start end_ easeInPercent easeOutPercent : jsnum,
  exists p : Q,
    computeEffectProgress currentTime start end_ easeInPercent easeOutPercent
    = Num p
    /\ 0 <= p <= 1.
Proof.
  intros currentTime start end_ easeInPercent easeOutPercent.
  unfold computeEffectProgress.
  generalize (jdiv (jsub currentTime start) (jsub end_ start)).
  intros u. cbv zeta. destruct u as [q | b |].
  - unfold jge. simpl jle.
    case_Qle_bool q 0; [exists 0; split; [reflexivity | lra] |].
    case_Qle_bool 1 q; [exists 0; split; [reflexivity | lra] |].
    destruct easeInPercent as [f | b |].
    + simpl jlt. case_Qltb q f.
      * rewrite jdiv_Num by (intro Hf; lra).
        apply easeInOutCubic_unit; apply ratio_unit; lra.
      * apply ease_out_unit; assumption.
    + destruct b; simpl jlt; cbv iota.
      * apply ease_out_unit; assumption.
      * exists 0. split; [vm_compute; reflexivity | lra].
    + simpl jlt. cbv iota. apply ease_out_unit; assumption.
  - destruct b; simpl; exists 0; split; try reflexivity; lra.
  - exists 1. split; [| lra].
    destruct easeInPercent, easeOutPercent; reflexivity.
Qed.

Lemma spec_progress_rising (u v : Q) :
  u <= v -> v <= 0.75 -> Spec.progress u <= Spec.progress v.
Proof.
  intros Huv Hv. pose proof (spec_progress_range v) as [Hv0 Hv1].
  unfold Spec.progress in *.
  case_Qle_bool u 0; simpl orb; cbv iota; [exact Hv0 |].
  case_Qle_bool 1 u; [lra |].
  case_Qle_bool v 0; simpl orb; cbv iota; [lra |].
  case_Qle_bool 1 v; [lra |].
  case_Qltb u 0.25.
  - case_Qltb v 0.25.
    + apply spec_cubic_mono. unfold Qdiv. change (/ 0.25) with (100 # 25). lra.
    + case_Qltb 0.75 v; [lra |].
      apply spec_cubic_range; unfold Qdiv; change (/ 0.25) with (100 # 25); lra.
  - case_Qltb 0.75 u; [lra |].
    case_Qltb v 0.25; [lra |]. case_Qltb 0.75 v; lra.
Qed.

Lemma spec_progress_falling (u v : Q) :
  0.25 <= u -> u <= v -> Spec.progress v <= Spec.progress u.
Proof.
  intros Hu Huv. pose proof (spec_progress_range u) as [Hu0 Hu1].
  unfold Spec.progress in *.
  case_Qle_bool v 0; simpl orb; cbv iota; [lra |].
  case_Qle_bool 1 v; [| case_Qle_bool u 0; simpl orb; cbv iota; [lra |]].
  - case_Qle_bool u 0; simpl orb in *; cbv iota in *; [lra |].
    case_Qle_bool 1 u; [lra | exact Hu0].
  - case_Qle_bool 1 u; [lra |].
    case_Qltb u 0.25; [lra |]. case_Qltb v 0.25; [lra |].
    case_Qltb 0.75 u.
    + case_Qltb 0.75 v; [| lra].
      apply spec_cubic_mono. unfold Qdiv. change (/ 0.25) with (100 # 25). lra.
    + case_Qltb 0.75 v; [| lra].
      apply spec_cubic_range; unfold Qdiv; change (/ 0.25) with (100 # 25); lra.
Qed.

Lemma window_time_mono (t1 t2 s e : Q) :
  s < e -> t1 <= t2 -> (t1 - s) / (e - s) <= (t2 - s) / (e - s).
Proof.
  intros Hse Ht. unfold Qdiv. apply Qmult_le_compat_r; [lra |].
  apply Qlt_le_weak, Qinv_lt_0_compat. lra.
Qed.

(** X5. With the ease fractions 0.25 the progress of a window with
    [end > start] rises and then falls: it never decreases up to
    [start + 0.75*(end-start)], where the ease-out begins, and never
    increases from [start + 0.25*(end-start)], where the hold begins. *)
Theorem computeEffectProgress_rises_then_falls :
  forall t1 t2 s e : Q,
    s < e ->
    t1 <= t2 ->
    let p1 := computeEffectProgress (Num t1) (Num s) (Num e)
                                    (Num 0.25) (Num 0.25) in
    let p2 := computeEffectProgress (Num t2) (Num s) (Num e)
                                    (Num 0.25) (Num 0.25) in
    (t2 <= s + 0.75 * (e - s) -> jle p1 p2 = true)
    /\ (s + 0.25 * (e - s) <= t1 -> jle p2 p1 = true).
Proof.
  intros t1 t2 s e Hse Ht p1 p2.
  assert (Hne : ~ s == e) by lra.
  destruct (jeq_Num_inv _ _ (computeEffectProgress_spec t1 s e Hne))
    as [q1 [E1 H1]].
  destruct (jeq_Num_inv _ _ (computeEffectProgress_spec t2 s e Hne))
    as [q2 [E2 H2]].
  subst p1 p2. rewrite E1, E2. simpl jle.
  pose proof (window_time_mono t1 t2 s e Hse Ht) as Hu.
  split; intros Hb; apply Qle_bool_iff; rewrite H1, H2.
  - apply spec_progress_rising; [exact Hu |].
    apply Qle_shift_div_r; lra.
  - apply spec_progress_falling; [| exact Hu].
    apply Qle_shift_div_l; lra.
Qed.

Lemma computeEffectProgress_rises_then_falls_witness :
  2 < 6
  /\ 2.2 <= 2.4
  /\ 2.4 <= 2 + 0.75 * (6 - 2)
  /\ jle (computeEffectProgress (Num 2.2) (Num 2) (Num 6)
                                (Num 0.25) (Num 0.25))
         (computeEffectProgress (Num 2.4) (Num 2) (Num 6)
                                (Num 0.25) (Num 0.25))
     = true.
Proof.
  assert (H1 : 2 < 6) by lra.
  assert (H2 : 2.2 <= 2.4) by lra.
  assert (H3 : 2.4 <= 2 + 0.75 * (6 - 2)) by lra.
  split; [exact H1 |]. split; [exact H2 |]. split; [exact H3 |].
  exact (proj1 (computeEffectProgress_rises_then_falls 2.2 2.4 2 6 H1 H2) H3).
Defined.

End ProgressEverywhere.

(** ** Normalised bounds of a box in a frame *)

Section NormalisedBox.

Import EffectProcessor.
Local Open Scope Q_scope.

Lemma Math_max_Num (a b : Q) : Math_max (Num a) (Num b) = Num (maxOf a b).
Proof.
  unfold Math_max, maxOf. simpl jlt. destruct (Qltb a b); reflexivity.
Qed.

(** The record [normalizeCoordinates] builds from numbers, when neither
    frame dimension is zero. *)
Lemma normalizeCoordinates_Num (x y w h fw fh : Q) (vw vh : jsnum) :
  ~ fw == 0 -> ~ fh == 0 ->
  let dominant := maxOf (w / fw) (h / fh) in
  let effective := maxOf ((w * h) / (fw * fh)) dominant in
  let scale := clampScale (Spec.autoScaleTier effective) in
  normalizeCoordinates (Bounds.mk (Num x) (Num y) (Num w) (Num h))
                       (Num fw) (Num fh) vw vh
  = {| NormalizedBounds.bounds := Bounds.mk (Num x) (Num y) (Num w) (Num h);
       NormalizedBounds.centerX := Num (x + w / 2);
       NormalizedBounds.centerY := Num (y + h / 2);
       NormalizedBounds.anchorX := Num ((x + w / 2) / fw);
       NormalizedBounds.anchorY := Num ((y + h / 2) / fh);
       NormalizedBounds.autoScale := Num scale;
       NormalizedBounds.startScale := Num 1.0;
       NormalizedBounds.endScale := Num scale;
       NormalizedBounds.areaRatio := Num ((w * h) / (fw * fh));
       NormalizedBounds.widthRatio := Num (w / fw);
       NormalizedBounds.heightRatio := Num (h / fh);
       NormalizedBounds.dominantRatio := Num dominant;
       NormalizedBounds.effectiveRatio := Num effective |}.
Proof.
  intros Hfw Hfh dominant effective scale.
  assert (Hff : ~ fw * fh == 0).
  { intro E. apply Qmult_integral in E. tauto. }
  unfold normalizeCoordinates. simpl Bounds.x. simpl Bounds.y.
  simpl Bounds.width. simpl Bounds.height.
  change (jdiv (Num w) (Num 2)) with (Num (w / 2)).
  change (jdiv (Num h) (Num 2)) with (Num (h / 2)).
  change (jadd (Num x) (Num (w / 2))) with (Num (x + w / 2)).
  change (jadd (Num y) (Num (h / 2))) with (Num (y + h / 2)).
  change (jmul (Num w) (Num h)) with (Num (w * h)).
  change (jmul (Num fw) (Num fh)) with (Num (fw * fh)).
  rewrite !(jdiv_Num _ fw Hfw), !(jdiv_Num _ fh Hfh), (jdiv_Num _ _ Hff).
  rewrite !Math_max_Num, autoScale_Num. reflexivity.
Qed.

Lemma autoScaleTier_at_most_2 (r : Q) : 0 < r -> Spec.autoScaleTier r <= 2.
Proof.
  intros Hr. unfold Spec.autoScaleTier.
  case_comparisons; unfold Qdiv;
    change (/ 0.01) with 100; change (/ 0.09) with (100 # 9);
    change (/ 0.4) with (10 # 4); lra.
Qed.

Lemma ratio_positive_unit (a b : Q) :
  0 < a -> a <= b -> 0 < a / b /\ a / b <= 1.
Proof.
  intros Ha Hab. split.
  - apply Qlt_shift_div_l; lra.
  - apply Qle_shift_div_r; lra.
Qed.

(** X6. For a box inside a frame ([x, y >= 0], [width, height > 0],
    [x+width <= frameWidth], [y+height <= frameHeight]) the width and
    height ratios lie in (0, 1], the area ratio is at most the dominant
    ratio, so the effective ratio is the dominant ratio, and the auto-scale
    lies in [1, 2]: the upper clamp 2.5 is never reached.  [startScale] is
    1, [endScale] is the auto-scale and the bounds are carried over. *)
Theorem normalizeCoordinates_box_in_frame :
  forall (x y w h fw fh : Q) (vw vh : jsnum),
    0 <= x -> 0 <= y -> 0 < w -> 0 < h ->
    x + w <= fw -> y + h <= fh ->
    let bounds := Bounds.mk (Num x) (Num y) (Num w) (Num h) in
    let nb := normalizeCoordinates bounds (Num fw) (Num fh) vw vh in
    jlt (Num 0) (NormalizedBounds.widthRatio nb) = true
    /\ jle (NormalizedBounds.widthRatio nb) (Num 1) = true
    /\ jlt (Num 0) (NormalizedBounds.heightRatio nb) = true
    /\ jle (NormalizedBounds.heightRatio nb) (Num 1) = true
    /\ jle (NormalizedBounds.areaRatio nb) (NormalizedBounds.dominantRatio nb)
       = true
    /\ jeq (NormalizedBounds.effectiveRatio nb)
           (NormalizedBounds.dominantRatio nb)
    /\ jle (Num 1) (NormalizedBounds.autoScale nb) = true
    /\ jle (NormalizedBounds.autoScale nb) (Num 2) = true
    /\ jeq (NormalizedBounds.startScale nb) (Num 1)
    /\ NormalizedBounds.endScale nb = NormalizedBounds.autoScale nb
    /\ NormalizedBounds.bounds nb = bounds.
Proof.
  intros x y w h fw fh vw vh Hx Hy Hw Hh Hxw Hyh bounds nb.
  assert (Hfw : ~ fw == 0) by (intro E; lra).
  assert (Hfh : ~ fh == 0) by (intro E; lra).
  subst nb bounds.
  rewrite (normalizeCoordinates_Num x y w h fw fh vw vh Hfw Hfh).
  cbv zeta. simpl.
  destruct (ratio_positive_unit w fw Hw ltac:(lra)) as [Hw0 Hw1].
  destruct (ratio_positive_unit h fh Hh ltac:(lra)) as [Hh0 Hh1].
  assert (Harea : (w * h) / (fw * fh) == (w / fw) * (h / fh))
    by (field; split; assumption).
  set (wr := w / fw) in *. set (hr := h / fh) in *.
  set (ar := (w * h) / (fw * fh)) in *.
  assert (Hdom : ar <= maxOf wr hr /\ 0 < maxOf wr hr /\ maxOf wr hr <= 1).
  { unfold maxOf. case_Qltb wr hr; rewrite Harea; repeat split; nra. }
  destruct Hdom as [Had [Hd0 Hd1]].
  assert (Heff : maxOf ar (maxOf wr hr) == maxOf wr hr).
  { unfold maxOf at 1. case_Qltb ar (maxOf wr hr); [reflexivity | lra]. }
  assert (Heff0 : 0 < maxOf ar (maxOf wr hr)) by lra.
  pose proof (autoScaleTier_range _ Heff0) as Hr.
  pose proof (clampScale_inside _ Hr) as Hin.
  pose proof (autoScaleTier_at_most_2 _ Heff0) as H2.
  split; [apply Qltb_lt; exact Hw0 |].
  split; [apply Qle_bool_iff; exact Hw1 |].
  split; [apply Qltb_lt; exact Hh0 |].
  split; [apply Qle_bool_iff; exact Hh1 |].
  split; [apply Qle_bool_iff; exact Had |].
  split; [exact Heff |].
  split; [apply Qle_bool_iff; rewrite Hin; lra |].
  split; [apply Qle_bool_iff; rewrite Hin; exact H2 |].
  repeat split; reflexivity.
Qed.

Lemma normalizeCoordinates_box_in_frame_witness :
  jle (NormalizedBounds.autoScale
         (normalizeCoordinates (Bounds.mk (Num 640) (Num 320) (Num 240) (Num 48))
                               (Num 1920) (Num 1080) NaN NaN))
      (Num 2) = true.
Proof.
  apply (normalizeCoordinates_box_in_frame 640 320 240 48 1920 1080 NaN NaN);
    lra.
Defined.






(** X8. For a box of numbers with [width >= 0] and [height >= 0] the
    center lies within the box, whatever the frame and video sizes are:
    [x <= centerX <= x + width] and [y <= centerY <= y + height]. *)
Theorem normalizeCoordinates_center_inside_box :
  forall (x y w h : Q) (fw fh vw vh : jsnum),
    0 <= w -> 0 <= h ->
    let nb :=
      normalizeCoordinates (Bounds.mk (Num x) (Num y) (Num w) (Num h))
                           fw fh vw vh in
    jle (Num x) (NormalizedBounds.centerX nb) = true
    /\ jle (NormalizedBounds.centerX nb) (jadd (Num x) (Num w)) = true
    /\ jle (Num y) (NormalizedBounds.centerY nb) = true
    /\ jle (NormalizedBounds.centerY nb) (jadd (Num y) (Num h)) = true.
Proof.
  intros x y w h fw fh vw vh Hw Hh nb. subst nb.
  unfold normalizeCoordinates.
  cbn [NormalizedBounds.centerX NormalizedBounds.centerY
       Bounds.x Bounds.y Bounds.width Bounds.height].
  change (jdiv (Num w) (Num 2)) with (Num (w / 2)).
  change (jdiv (Num h) (Num 2)) with (Num (h / 2)).
  change (jadd (Num x) (Num (w / 2))) with (Num (x + w / 2)).
  change (jadd (Num y) (Num (h / 2))) with (Num (y + h / 2)).
  change (jadd (Num x) (Num w)) with (Num (x + w)).
  change (jadd (Num y) (Num h)) with (Num (y + h)).
  unfold Qdiv. change (/ 2) with (1 # 2).
  split; [apply Qle_bool_iff; lra |].
  split; [apply Qle_bool_iff; lra |].
  split; apply Qle_bool_iff; lra.
Qed.

Lemma normalizeCoordinates_center_inside_box_witness :
  jle (Num 640)
      (NormalizedBounds.centerX
         (normalizeCoordinates
            (Bounds.mk (Num 640) (Num 320) (Num 240) (Num 48))
            (Num 1920) (Num 1080) NaN NaN)) = true
  /\ jle (NormalizedBounds.centerX
            (normalizeCoordinates
               (Bounds.mk (Num 640) (Num 320) (Num 240) (Num 48))
               (Num 1920) (Num 1080) NaN NaN))
         (jadd (Num 640) (Num 240)) = true.
Proof.
  pose proof (normalizeCoordinates_center_inside_box
                640 320 240 48 (Num 1920) (Num 1080) NaN NaN
                ltac:(lra) ltac:(lra)) as H.
  split; [exact (proj1 H) | exact (proj1 (proj2 H))].
Defined.

End NormalisedBox.

(** ** The transform as a map of the frame *)

Section TransformMap.

Import EffectProcessor.
Local Open Scope Q_scope.



End TransformMap.

(** ** Selection, for every list *)

Section Selection.

Import EffectProcessor.
Context {E : Type} `{Timed E}.

Lemma fold_later_In (rest : list E) :
  forall latest : E, In (fold_left later rest latest) (latest :: rest).
Proof.
  induction rest as [| e rest IH]; intros latest; simpl fold_left.
  - left. reflexivity.
  - unfold later at 2. destruct (jgt (start e) (start latest)).
    + right. apply IH.
    + destruct (IH latest) as [Hl | Hr]; [left; exact Hl | right; right; exact Hr].
Qed.

Lemma resolveZoomEffect_In (effects : list E) (e : E) :
  resolveZoomEffect effects = Some e -> In e effects.
Proof.
  destruct effects as [| first others]; intros He; [discriminate |].
  injection He as <-. apply fold_later_In.
Qed.

(** X10. [resolveZoomEffect] returns [null] only for the empty list, and
    otherwise an effect of the list, also when starts are NaN or equal.
    After [getActiveEffects] the effect it returns is one of the given
    effects and its window contains the current time. *)
Theorem resolveZoomEffect_member :
  (forall effects : list E, resolveZoomEffect effects = None <-> effects = [])
  /\ (forall (effects : list E) (e : E),
         resolveZoomEffect effects = Some e -> In e effects)
  /\ (forall (effects : list E) (t : jsnum) (e : E),
         resolveZoomEffect (getActiveEffects effects t) = Some e ->
         In e effects /\ jle (start e) t = true /\ jle t (end_ e) = true).
Proof.
  split; [| split; [exact resolveZoomEffect_In |]].
  - intros [| first others]; split; intros Hx;
      reflexivity || discriminate.
  - intros effects t e He. apply resolveZoomEffect_In in He.
    apply getActiveEffects_In in He. exact He.
Qed.

End Selection.

Lemma resolveZoomEffect_member_witness :
  In (window 3 6) overlapping
  /\ jle (start (window 3 6)) (Num 4) = true
  /\ jle (Num 4) (end_ (window 3 6)) = true.
Proof.
  apply (proj2 (proj2 (@resolveZoomEffect_member
                         DisplayEffect.t DisplayEffect_Timed))
           overlapping (Num 4) (window 3 6)).
  reflexivity.
Defined.

(** ** The render step on normalised effects *)

Section RenderStep.

Import EffectProcessor VideoEffectPreview.
Local Open Scope Q_scope.

Lemma handleMetadata_In (ne : NormalizedEffect.t)
    (displayEffects : list DisplayEffect.t) (w h : jsnum) :
  In ne (handleMetadata displayEffects w h)
  <-> exists d b,
      In d displayEffects
      /\ zoomBounds d = Some b
      /\ ne = {| NormalizedEffect.effect := d;
                 NormalizedEffect.normalizedBounds :=
                   normalizeCoordinates b w h w h |}.
Proof.
  unfold handleMetadata. rewrite in_flat_map. split.
  - intros [d [Hd Hne]]. destruct (zoomBounds d) as [b |] eqn:Hb.
    + destruct Hne as [Hne | []]. exists d, b. auto.
    + destruct Hne.
  - intros [d [b [Hd [Hb Hne]]]]. exists d. split; [exact Hd |].
    rewrite Hb. left. symmetry. exact Hne.
Qed.

(** X11. [handleMetadata] keeps exactly the effects that have bounds and
    an enabled zoom, in their order and with their fields unchanged, and
    gives each the normalisation of its own bounds in the recording
    dimensions. *)
Theorem handleMetadata_keeps_zoom_effects :
  forall (displayEffects : list DisplayEffect.t) (w h : jsnum),
    map NormalizedEffect.effect (handleMetadata displayEffects w h)
    = filter hasZoomBounds displayEffects
    /\ Forall
         (fun ne =>
            exists b,
              zoomBounds (NormalizedEffect.effect ne) = Some b
              /\ NormalizedEffect.normalizedBounds ne
                 = normalizeCoordinates b w h w h)
         (handleMetadata displayEffects w h).
Proof.
  intros displayEffects w h. split.
  - unfold handleMetadata, hasZoomBounds.
    induction displayEffects as [| d rest IH]; [reflexivity |].
    simpl. destruct (zoomBounds d); simpl; rewrite IH; reflexivity.
  - apply Forall_forall. intros ne Hne.
    apply handleMetadata_In in Hne. destruct Hne as [d [b [_ [Hb ->]]]].
    exists b. split; [exact Hb | reflexivity].
Qed.

Lemma targetScale_normalised (ne : NormalizedEffect.t)
    (displayEffects : list DisplayEffect.t) (w h : jsnum) :
  In ne (handleMetadata displayEffects w h) ->
  exists scale, targetScale ne = Some scale.
Proof.
  intros Hne. apply handleMetadata_In in Hne.
  destruct Hne as [d [b [_ [Hb ->]]]]. unfold targetScale. simpl.
  destruct (truthy _); [eexists; reflexivity |].
  unfold zoomBounds in Hb.
  destruct (DisplayEffect.target_bounds d); [| discriminate].
  destruct (DisplayEffect.style_zoom d); [| discriminate].
  eexists; reflexivity.
Qed.

(** What [renderFrame] does: the identity when no effect is active, and
    otherwise the transform of the effect that [resolveZoomEffect] picks. *)
Lemma renderFrame_cases (effects : list NormalizedEffect.t) (t : jsnum) :
  (getActiveEffects effects t = [] /\ renderFrame effects t = Applied identity)
  \/ (exists e,
         In e (getActiveEffects effects t)
         /\ renderFrame effects t
            = match targetScale e with
              | Some scale =>
                  Applied
                    (calculateZoomTransform
                       (computeEffectProgress t (start e) (end_ e)
                                              (Num 0.25) (Num 0.25))
                       (NormalizedBounds.centerX
                          (NormalizedEffect.normalizedBounds e))
                       (NormalizedBounds.centerY
                          (NormalizedEffect.normalizedBounds e))
                       scale)
              | None => Threw
              end).
Proof.
  unfold renderFrame. destruct (getActiveEffects effects t) as [| a rest] eqn:Ha.
  - left. split; reflexivity.
  - right. exists (fold_left later rest a). split.
    + apply fold_later_In.
    + reflexivity.
Qed.

(** X12. On the effects [handleMetadata] produced, [renderFrame] always
    writes a transform: it never throws and never leaves the layer as it
    is.  When no window contains the current time, NaN included, it writes
    the identity transform. *)
Theorem renderFrame_always_applies :
  forall (displayEffects : list DisplayEffect.t) (w h t : jsnum),
    (exists transform,
        renderFrame (handleMetadata displayEffects w h) t = Applied transform)
    /\ ((forall d, In d displayEffects ->
                   jle (start d) t && jle t (end_ d) = false) ->
        renderFrame (handleMetadata displayEffects w h) t = Applied identity).
Proof.
  intros displayEffects w h t. split.
  - destruct (renderFrame_cases (handleMetadata displayEffects w h) t)
      as [[_ Hid] | [e [He Hr]]].
    + exists identity. exact Hid.
    + apply getActiveEffects_In in He. destruct He as [He _].
      destruct (targetScale_normalised e displayEffects w h He) as [sc Hsc].
      rewrite Hsc in Hr. eexists. exact Hr.
  - intros Hout.
    destruct (renderFrame_cases (handleMetadata displayEffects w h) t)
      as [[_ Hid] | [e [He _]]]; [exact Hid |].
    apply getActiveEffects_In in He. destruct He as [He [Hs Hen]].
    apply handleMetadata_In in He. destruct He as [d [b [Hd [_ ->]]]].
    specialize (Hout d Hd). simpl in Hs, Hen. simpl in Hout.
    rewrite Hs, Hen in Hout. discriminate.
Qed.

Lemma renderFrame_always_applies_witness :
  renderFrame (handleMetadata [zoomOn 2 5; window 1 3] (Num 1920) (Num 1080))
              (Num 7)
  = Applied identity.
Proof.
  apply (proj2 (renderFrame_always_applies
                  [zoomOn 2 5; window 1 3] (Num 1920) (Num 1080) (Num 7))).
  intros d [<- | [<- | []]]; reflexivity.
Defined.

(** The auto-scale of a box inside its frame. *)
Lemma box_scale_range (x y bw bh w h : Q) :
  0 <= x -> 0 <= y -> 0 < bw -> 0 < bh -> x + bw <= w -> y + bh <= h ->
  1 <= clampScale
         (Spec.autoScaleTier
            (maxOf ((bw * bh) / (w * h)) (maxOf (bw / w) (bh / h)))) <= 2.
Proof.
  intros Hx Hy Hw Hh Hxw Hyh.
  destruct (ratio_positive_unit bw w Hw ltac:(lra)) as [Hw0 Hw1].
  destruct (ratio_positive_unit bh h Hh ltac:(lra)) as [Hh0 Hh1].
  set (wr := bw / w) in *. set (hr := bh / h) in *.
  set (ar := (bw * bh) / (w * h)).
  assert (Hd0 : 0 < maxOf wr hr).
  { unfold maxOf. case_Qltb wr hr; lra. }
  assert (Heff0 : 0 < maxOf ar (maxOf wr hr)).
  { set (dom := maxOf wr hr) in *. unfold maxOf. case_Qltb ar dom; lra. }
  pose proof (autoScaleTier_range _ Heff0) as Hr.
  rewrite (clampScale_inside _ Hr).
  pose proof (autoScaleTier_at_most_2 _ Heff0). lra.
Qed.

(** A normalised effect of well-formed data, spelled out. *)
Lemma normalised_wellFormed (ne : NormalizedEffect.t)
    (displayEffects : list DisplayEffect.t) (w h : Q) :
  Forall (wellFormed w h) displayEffects ->
  In ne (handleMetadata displayEffects (Num w) (Num h)) ->
  exists s e cx cy a : Q,
    start ne = Num s /\ end_ ne = Num e /\ s < e
    /\ NormalizedBounds.centerX (NormalizedEffect.normalizedBounds ne) = Num cx
    /\ NormalizedBounds.centerY (NormalizedEffect.normalizedBounds ne) = Num cy
    /\ targetScale ne = Some (Num a)
    /\ 0 <= cx <= w /\ 0 <= cy <= h /\ 1 <= a <= 2.
Proof.
  intros Hwf Hne. apply handleMetadata_In in Hne.
  destruct Hne as [d [b [Hd [Hb ->]]]].
  rewrite Forall_forall in Hwf.
  destruct (Hwf d Hd) as [[s [e [Hs [He Hse]]]] Hbox].
  assert (Htb : DisplayEffect.target_bounds d = Some b).
  { unfold zoomBounds in Hb.
    destruct (DisplayEffect.target_bounds d); [| discriminate].
    destruct (DisplayEffect.style_zoom d) as [z |]; [| discriminate].
    destruct (Zoom.enabled z); [exact Hb | discriminate]. }
  destruct (Hbox b Htb)
    as [x [y [bw [bh [-> [Hx [Hy [Hbw [Hbh [Hxw Hyh]]]]]]]]]].
  assert (Hw : ~ w == 0) by (intro E; lra).
  assert (Hh : ~ h == 0) by (intro E; lra).
  pose proof (box_scale_range x y bw bh w h Hx Hy Hbw Hbh Hxw Hyh) as Ha.
  exists s, e, (x + bw / 2), (y + bh / 2),
    (clampScale
       (Spec.autoScaleTier
          (maxOf ((bw * bh) / (w * h)) (maxOf (bw / w) (bh / h))))).
  rewrite (normalizeCoordinates_Num x y bw bh w h (Num w) (Num h) Hw Hh).
  unfold targetScale. cbv zeta. simpl.
  assert (Hnz : Qeq_bool
                  (clampScale
                     (Spec.autoScaleTier
                        (maxOf ((bw * bh) / (w * h))
                               (maxOf (bw / w) (bh / h))))) 0 = false).
  { apply Qeq_bool_false. intro E. lra. }
  rewrite Hnz. simpl.
  assert (Hbw2 : bw / 2 == bw * (1 # 2)) by (unfold Qdiv; reflexivity).
  assert (Hbh2 : bh / 2 == bh * (1 # 2)) by (unfold Qdiv; reflexivity).
  repeat split; try assumption; try reflexivity; lra.
Qed.

(** X13. When every effect has a window of numbers with [start < end] and
    a box inside the [w] x [h] frame, the transform [renderFrame] writes at
    any time has a scale between 1 and 2 and translations that are not
    positive, and the image of the frame under
    [x -> x*scale + translate] covers the frame on both axes. *)
Theorem renderFrame_bounded_zoom :
  forall (displayEffects : list DisplayEffect.t) (w h : Q) (t : jsnum),
    Forall (wellFormed w h) displayEffects ->
    exists sc tx ty : Q,
      renderFrame (handleMetadata displayEffects (Num w) (Num h)) t
      = Applied (Transform.mk (Num sc) (Num tx) (Num ty))
      /\ 1 <= sc <= 2
      /\ tx <= 0 /\ ty <= 0
      /\ (0 <= w -> w <= w * sc + tx)
      /\ (0 <= h -> h <= h * sc + ty).
Proof.
  intros displayEffects w h t Hwf.
  destruct (renderFrame_cases (handleMetadata displayEffects (Num w) (Num h)) t)
    as [[_ Hid] | [ne [Hact Hr]]].
  - exists 1, 0, 0. split; [exact Hid |]. repeat split; lra.
  - apply getActiveEffects_In in Hact. destruct Hact as [Hne [Hs He]].
    destruct (normalised_wellFormed ne displayEffects w h Hwf Hne)
      as [s [e [cx [cy [a [Es [Ee [Hse [Ecx [Ecy [Ets [Hcx [Hcy Ha]]]]]]]]]]]]].
    rewrite Ets, Ecx, Ecy, Es, Ee in Hr. rewrite Es in Hs. rewrite Ee in He.
    destruct t as [tq | b |]; try discriminate;
      [| destruct b; discriminate].
    assert (Hne' : ~ s == e) by lra.
    destruct (jeq_Num_inv _ _ (computeEffectProgress_spec tq s e Hne'))
      as [p [Ep Hp]].
    pose proof (spec_progress_range ((tq - s) / (e - s))) as Hrange.
    rewrite <- Hp in Hrange. destruct Hrange as [Hp0 Hp1].
    rewrite Ep in Hr.
    exists (1 + (a - 1) * p), (- cx * (1 + (a - 1) * p - 1)),
      (- cy * (1 + (a - 1) * p - 1)).
    split; [exact Hr |].
    assert (H0 : 0 <= (a - 1) * p) by nra.
    assert (H1 : (a - 1) * p <= a - 1) by nra.
    split; [lra |].
    set (m := (a - 1) * p) in *.
    assert (Hx : 0 <= cx * m) by (apply Qmult_le_0_compat; lra).
    assert (Hy : 0 <= cy * m) by (apply Qmult_le_0_compat; lra).
    assert (Hxw : 0 <= (w - cx) * m) by (apply Qmult_le_0_compat; lra).
    assert (Hyh : 0 <= (h - cy) * m) by (apply Qmult_le_0_compat; lra).
    split; [lra |]. split; [lra |]. split; intros Hpos; lra.
Qed.

Lemma zoomOn_wellFormed (s e : Q) : (s < e)%Q -> wellFormed 1920 1080 (zoomOn s e).
Proof.
  intros Hse. split.
  - exists s, e. split; [reflexivity |]. split; [reflexivity | exact Hse].
  - intros b Hb. injection Hb as <-.
    exists 640, 320, 240, 48. split; [reflexivity |]. lra.
Qed.

Lemma renderFrame_bounded_zoom_witness :
  exists sc tx ty : Q,
    renderFrame (handleMetadata [zoomOn 2 5] (Num 1920) (Num 1080)) (Num 3)
    = Applied (Transform.mk (Num sc) (Num tx) (Num ty))
    /\ 1 <= sc <= 2
    /\ tx <= 0 /\ ty <= 0
    /\ (0 <= 1920 -> 1920 <= 1920 * sc + tx)
    /\ (0 <= 1080 -> 1080 <= 1080 * sc + ty).
Proof.
  apply (renderFrame_bounded_zoom [zoomOn 2 5] 1920 1080 (Num 3)).
  constructor; [| constructor].
  split.
  - exists 2, 5. repeat split; lra.
  - intros b Hb. injection Hb as <-.
    exists 640, 320, 240, 48. split; [reflexivity |]. lra.
Defined.

Lemma renderFrame_resolved (effects : list NormalizedEffect.t) (t : jsnum)
    (e : NormalizedEffect.t) :
  resolveZoomEffect (getActiveEffects effects t) = Some e ->
  renderFrame effects t
  = match targetScale e with
    | Some scale =>
        Applied
          (calculateZoomTransform
             (computeEffectProgress t (start e) (end_ e) (Num 0.25) (Num 0.25))
             (NormalizedBounds.centerX (NormalizedEffect.normalizedBounds e))
             (NormalizedBounds.centerY (NormalizedEffect.normalizedBounds e))
             scale)
    | None => Threw
    end.
Proof.
  unfold renderFrame. destruct (getActiveEffects effects t) as [| a rest].
  - discriminate.
  - intros He. rewrite He. reflexivity.
Qed.

Lemma computeEffectProgress_at_boundary (t s e : Q) :
  s < e -> t == s \/ t == e ->
  computeEffectProgress (Num t) (Num s) (Num e) (Num 0.25) (Num 0.25) = Num 0.
Proof.
  intros Hse Ht. assert (Hne : ~ s == e) by lra.
  assert (Hd : ~ e - s == 0) by (intro E; lra).
  rewrite (computeEffectProgress_Num t s e Hne). cbv zeta.
  destruct Ht as [Ht | Ht].
  - assert (E0 : (t - s) / (e - s) == 0) by (rewrite Ht; field; exact Hd).
    case_Qle_bool ((t - s) / (e - s)) 0; [reflexivity | lra].
  - assert (E1 : (t - s) / (e - s) == 1) by (rewrite Ht; field; exact Hd).
    case_Qle_bool ((t - s) / (e - s)) 0; [reflexivity |].
    case_Qle_bool 1 ((t - s) / (e - s)); [reflexivity | lra].
Qed.

(** X14. With well-formed effects, at the very start and at the very end
    of the window of the effect that is applied the transform written is
    numerically the identity (scale 1, no translation): an effect enters
    and leaves without a jump. *)
Theorem renderFrame_identity_at_boundaries :
  forall (displayEffects : list DisplayEffect.t) (w h t : Q)
         (ne : NormalizedEffect.t),
    Forall (wellFormed w h) displayEffects ->
    resolveZoomEffect
      (getActiveEffects (handleMetadata displayEffects (Num w) (Num h))
                        (Num t))
    = Some ne ->
    jeq (Num t) (start ne) \/ jeq (Num t) (end_ ne) ->
    exists transform,
      renderFrame (handleMetadata displayEffects (Num w) (Num h)) (Num t)
      = Applied transform
      /\ jeq (Transform.scale transform) (Num 1)
      /\ jeq (Transform.translateX transform) (Num 0)
      /\ jeq (Transform.translateY transform) (Num 0).
Proof.
  intros displayEffects w h t ne Hwf Hres Hb.
  rewrite (renderFrame_resolved _ _ ne Hres).
  assert (Hne : In ne (handleMetadata displayEffects (Num w) (Num h))).
  { apply resolveZoomEffect_In in Hres.
    apply getActiveEffects_In in Hres. exact (proj1 Hres). }
  destruct (normalised_wellFormed ne displayEffects w h Hwf Hne)
    as [s [e [cx [cy [a [Es [Ee [Hse [Ecx [Ecy [Ets _]]]]]]]]]]].
  rewrite Ets, Ecx, Ecy, Es, Ee. rewrite Es, Ee in Hb. simpl in Hb.
  rewrite (computeEffectProgress_at_boundary t s e Hse Hb).
  eexists. split; [reflexivity |].
  unfold calculateZoomTransform. simpl. repeat split; ring.
Qed.

Lemma renderFrame_identity_at_boundaries_witness :
  exists transform,
    renderFrame (handleMetadata [zoomOn 2 5] (Num 1920) (Num 1080)) (Num 2)
    = Applied transform
    /\ jeq (Transform.scale transform) (Num 1)
    /\ jeq (Transform.translateX transform) (Num 0)
    /\ jeq (Transform.translateY transform) (Num 0).
Proof.
  apply (renderFrame_identity_at_boundaries
           [zoomOn 2 5] 1920 1080 2
           (NormalizedEffect.mk
              (zoomOn 2 5)
              (normalizeCoordinates scenarioA (Num 1920) (Num 1080)
                                    (Num 1920) (Num 1080)))).
  - constructor; [| constructor]. split.
    + exists 2, 5. split; [reflexivity |]. split; [reflexivity | lra].
    + intros b Hb. injection Hb as <-.
      exists 640, 320, 240, 48. split; [reflexivity |]. lra.
  - reflexivity.
  - left. simpl. reflexivity.
Defined.

End RenderStep.

(** ** The time display *)

Section TimeDisplay.

Import NumberText.
Local Open Scope Q_scope.

Lemma floor_unique (x : Q) (z : Z) :
  inject_Z z <= x -> x < inject_Z (z + 1) -> Qfloor x = z.
Proof.
  intros Hlo Hhi.
  pose proof (Qfloor_le x) as H1. pose proof (Qlt_floor x) as H2.
  assert (A : (Qfloor x < z + 1)%Z).
  { rewrite Zlt_Qlt. eapply Qle_lt_trans; eassumption. }
  assert (B : (z < Qfloor x + 1)%Z).
  { rewrite Zlt_Qlt. eapply Qle_lt_trans; eassumption. }
  lia.
Qed.

Lemma floor_div_60 (s : Q) : Qfloor (s / 60) = (Qfloor s / 60)%Z.
Proof.
  pose proof (Qfloor_le s) as H1. pose proof (Qlt_floor s) as H2.
  pose proof (Z.div_mod (Qfloor s) 60 ltac:(lia)) as Hdm.
  pose proof (Z.mod_pos_bound (Qfloor s) 60 ltac:(lia)) as Hr.
  set (F := Qfloor s) in *. set (M := (F / 60)%Z) in *.
  set (r := (F mod 60)%Z) in *.
  assert (HF : inject_Z F == 60 * inject_Z M + inject_Z r).
  { rewrite Hdm at 1. rewrite inject_Z_plus, inject_Z_mult. reflexivity. }
  assert (Hr0 : 0 <= inject_Z r)
    by (change 0 with (inject_Z 0); rewrite <- Zle_Qle; lia).
  assert (Hr1 : inject_Z r <= 59)
    by (change 59 with (inject_Z 59); rewrite <- Zle_Qle; lia).
  rewrite inject_Z_plus in H2. change (inject_Z 1) with 1 in H2.
  apply floor_unique.
  - apply Qle_shift_div_l; lra.
  - rewrite inject_Z_plus. change (inject_Z 1) with 1.
    apply Qlt_shift_div_r; lra.
Qed.

Lemma floor_sub_Z (x : Q) (z : Z) :
  Qfloor (x - inject_Z z) = (Qfloor x - z)%Z.
Proof.
  pose proof (Qfloor_le x) as H1. pose proof (Qlt_floor x) as H2.
  rewrite inject_Z_plus in H2. change (inject_Z 1) with 1 in H2.
  apply floor_unique.
  - unfold Z.sub. rewrite inject_Z_plus, inject_Z_opp. lra.
  - replace (Qfloor x - z + 1)%Z with (Qfloor x + 1 + - z)%Z by lia.
    rewrite !inject_Z_plus, inject_Z_opp. change (inject_Z 1) with 1. lra.
Qed.

Lemma truncate_nonneg (q : Q) : 0 <= q -> truncate q = Qfloor q.
Proof.
  intros Hq. destruct q as [n d]. unfold truncate, Qfloor. simpl.
  apply Z.quot_div_nonneg; [| lia].
  unfold Qle in Hq. simpl in Hq. lia.
Qed.

Lemma integerOf_inject (z : Z) : integerOf (inject_Z z) = Some z.
Proof.
  unfold integerOf. rewrite Qcanon.Qred_identity.
  - reflexivity.
  - simpl. apply Z.gcd_1_r.
Qed.

Lemma toString_integer (z : Z) :
  (Z.abs z < 10 ^ 21)%Z -> toString (Num (inject_Z z)) = Some (decimal z).
Proof.
  intros Hz. unfold toString. rewrite integerOf_inject.
  apply Z.ltb_lt in Hz. rewrite Hz. reflexivity.
Qed.

Lemma padStart_twoDigits (r : Z) :
  (0 <= r < 60)%Z -> padStart (decimal r) 2 "0"%char = twoDigits r.
Proof.
  intros Hr. rewrite <- (Z2Nat.id r) by lia.
  assert (Hn : (Z.to_nat r < 60)%nat) by lia.
  generalize dependent (Z.to_nat r). clear. intros n Hn.
  do 60 (destruct n as [| n]; [vm_compute; reflexivity |]). lia.
Qed.

(** X15. For a time [s >= 0] the preview shows the whole minutes of
    [floor(s)], a colon, and the remaining whole seconds as exactly two
    digits: [floor(s) div 60] and [floor(s) mod 60] (minutes below 10^21,
    where JavaScript still prints all digits). *)
Theorem formatTime_minutes_seconds :
  forall s : Q,
    0 <= s ->
    (Qfloor s / 60 < 10 ^ 21)%Z ->
    Preview.formatTime (Num s)
    = Some (decimal (Qfloor s / 60) ++ ":"
            ++ twoDigits (Qfloor s mod 60))%string.
Proof.
  intros s Hs Hbound.
  pose proof (Qfloor_resp_le 0 s Hs) as HF0.
  change (Qfloor 0) with 0%Z in HF0.
  pose proof (Z.mod_pos_bound (Qfloor s) 60 ltac:(lia)) as Hr.
  pose proof (Z.div_pos (Qfloor s) 60 HF0 ltac:(lia)) as HM0.
  assert (Hs60 : 0 <= s / 60) by (apply Qle_shift_div_l; lra).
  unfold Preview.formatTime.
  change (jdiv (Num s) (Num 60)) with (Num (s / 60)).
  change (jrem (Num s) (Num 60))
    with (Num (s - 60 * inject_Z (truncate (s / 60)))).
  cbv zeta. unfold Math_floor.
  rewrite (truncate_nonneg _ Hs60), floor_div_60.
  assert (Hrem : Qfloor (s - 60 * inject_Z (Qfloor s / 60))
                 = (Qfloor s mod 60)%Z).
  { change 60 with (inject_Z 60) at 1. rewrite <- inject_Z_mult.
    rewrite floor_sub_Z.
    pose proof (Z.div_mod (Qfloor s) 60 ltac:(lia)). lia. }
  rewrite Hrem.
  rewrite (toString_integer (Qfloor s / 60)) by lia.
  rewrite (toString_integer (Qfloor s mod 60)) by lia.
  rewrite (padStart_twoDigits _ Hr). reflexivity.
Qed.

Lemma formatTime_minutes_seconds_witness :
  Preview.formatTime (Num 3725.4) = Some "62:05"%string.
Proof.
  apply (formatTime_minutes_seconds 3725.4).
  - lra.
  - vm_compute. reflexivity.
Defined.

(** X16. The two [formatTime] functions differ only where the session
    page guards: for NaN the preview prints [NaN:NaN] and for an infinite
    duration [Infinity:NaN], while the session page prints [0:00] for NaN,
    both infinities and zero; on every other number they give the same
    text. *)
Theorem formatTime_guarded :
  Preview.formatTime NaN = Some "NaN:NaN"%string
  /\ Preview.formatTime PosInf = Some "Infinity:NaN"%string
  /\ RecordingSessionPage.formatTime NaN = Some "0:00"%string
  /\ (forall b, RecordingSessionPage.formatTime (Inf b) = Some "0:00"%string)
  /\ (forall q : Q,
         q == 0 -> RecordingSessionPage.formatTime (Num q) = Some "0:00"%string)
  /\ (forall q : Q,
         ~ q == 0 ->
         RecordingSessionPage.formatTime (Num q) = Preview.formatTime (Num q)).
Proof.
  split; [reflexivity |]. split; [reflexivity |]. split; [reflexivity |].
  split; [intros []; reflexivity |].
  split.
  - intros q Hq. unfold RecordingSessionPage.formatTime. simpl truthy.
    apply Qeq_bool_iff in Hq. rewrite Hq. reflexivity.
  - intros q Hq. unfold RecordingSessionPage.formatTime. simpl truthy.
    destruct (Qeq_bool q 0) eqn:E; [apply Qeq_bool_iff in E; contradiction |].
    reflexivity.
Qed.

Lemma formatTime_guarded_witness :
  RecordingSessionPage.formatTime (Num 75.5) = Preview.formatTime (Num 75.5).
Proof.
  apply (proj2 (proj2 (proj2 (proj2 (proj2 formatTime_guarded)))) 75.5).
  intro E. lra.
Defined.

End TimeDisplay.

(** ** Seeking on the progress bar *)

Section Seek.

Local Open Scope Q_scope.

Lemma Math_min_Num (a b : Q) : Math_min (Num a) (Num b) = Num (minOf a b).
Proof.
  unfold Math_min, minOf. simpl jlt. destruct (Qltb b a); reflexivity.
Qed.

(** X17. For a bar of positive width and a duration [>= 0], [handleSeek]
    sets a time between 0 and the duration: the clicked fraction of the
    duration for a click on the bar, 0 for a click left of it and the
    duration for a click right of it. *)
Theorem handleSeek_within_duration :
  forall clientX left width duration : Q,
    0 < width -> 0 <= duration ->
    exists newTime : Q,
      RecordingSessionPage.handleSeek (Num clientX) (Num left) (Num width)
                                      (Num duration)
      = Num newTime
      /\ 0 <= newTime <= duration
      /\ (left <= clientX -> clientX <= left + width ->
          newTime == (clientX - left) / width * duration)
      /\ (clientX <= left -> newTime == 0)
      /\ (left + width <= clientX -> newTime == duration).
Proof.
  intros clientX left width duration Hw Hd.
  unfold RecordingSessionPage.handleSeek.
  change (jsub (Num clientX) (Num left)) with (Num (clientX - left)).
  rewrite jdiv_Num by (intro E; lra). cbv zeta.
  change (jmul (Num ((clientX - left) / width)) (Num duration))
    with (Num ((clientX - left) / width * duration)).
  rewrite Math_min_Num, Math_max_Num.
  set (pos := (clientX - left) / width).
  assert (Hpos : pos * width == clientX - left)
    by (unfold pos; field; intro E; lra).
  eexists. split; [reflexivity |].
  assert (Hin : left <= clientX -> 0 <= pos * duration).
  { intros H. apply Qmult_le_0_compat; [| exact Hd].
    unfold pos. apply Qle_shift_div_l; lra. }
  assert (Hle : clientX <= left + width -> pos * duration <= duration).
  { intros H. assert (Hp1 : pos <= 1) by (unfold pos; apply Qle_shift_div_r; lra).
    nra. }
  assert (Hout : clientX <= left -> pos * duration <= 0).
  { intros H. assert (Hp0 : pos <= 0).
    { unfold pos, Qdiv. rewrite <- (Qmult_0_l (/ width)).
      apply Qmult_le_compat_r; [lra |].
      apply Qlt_le_weak, Qinv_lt_0_compat, Hw. }
    nra. }
  assert (Hbig : left + width <= clientX -> duration <= pos * duration).
  { intros H. assert (Hp1 : 1 <= pos) by (unfold pos; apply Qle_shift_div_l; lra).
    nra. }
  unfold maxOf, minOf.
  case_Qltb duration (pos * duration); case_comparisons;
    (split; [lra |]);
    (split; [intros H1 H2; specialize (Hin H1); specialize (Hle H2); lra |]);
    (split; [intros H1; specialize (Hout H1); lra
            | intros H1; specialize (Hbig H1); lra]).
Qed.

Lemma handleSeek_within_duration_witness :
  exists newTime : Q,
    RecordingSessionPage.handleSeek (Num 150) (Num 100) (Num 200) (Num 60)
    = Num newTime
    /\ 0 <= newTime <= 60
    /\ (100 <= 150 -> 150 <= 100 + 200 -> newTime == (150 - 100) / 200 * 60)
    /\ (150 <= 100 -> newTime == 0)
    /\ (100 + 200 <= 150 -> newTime == 60).
Proof.
  apply (handleSeek_within_duration 150 100 200 60); lra.
Defined.

End Seek.

(** ** Export to the backend *)

Section ExportGate.

Import Preview.
Local Open Scope string_scope.

Variable generateZoomInstructions :
  list DisplayEffect.t -> Frame.t -> list jsval.
Variable validateZoomInstruction : jsval -> Validation.t.
Variable checkInstructionPurity : jsval -> InstructionGenerator.Purity.t.

Local Abbreviation accepted :=
  (Preview.accepted validateZoomInstruction checkInstructionPurity).
Local Abbreviation rejection :=
  (Preview.rejection validateZoomInstruction checkInstructionPurity).

Lemma validateFrom_accepted (pureInstructions : list jsval) :
  forall i : nat,
    validateFrom validateZoomInstruction checkInstructionPurity i
                 pureInstructions = None
    <-> Forall (fun instruction => accepted instruction = true)
               pureInstructions.
Proof.
  induction pureInstructions as [| instruction rest IH]; intros i; simpl.
  - split; [constructor | reflexivity].
  - destruct (Validation.valid (validateZoomInstruction instruction)) eqn:Hv;
      simpl;
      [destruct (InstructionGenerator.Purity.clean
                   (checkInstructionPurity instruction)) eqn:Hc; simpl |].
    + rewrite IH. split.
      * intros Hall. constructor; [| exact Hall].
        unfold accepted. rewrite Hv, Hc. reflexivity.
      * intros Hall. inversion Hall; assumption.
    + split; [discriminate |]. intros Hall.
      inversion Hall as [| ? ? Hacc _]; subst.
      unfold accepted in Hacc. rewrite Hv, Hc in Hacc. discriminate.
    + split; [discriminate |]. intros Hall.
      inversion Hall as [| ? ? Hacc _]; subst.
      unfold accepted in Hacc. rewrite Hv in Hacc. discriminate.
Qed.

Lemma validateFrom_first (pre : list jsval) :
  forall (i : nat) (bad : jsval) (post : list jsval),
    Forall (fun instruction => accepted instruction = true) pre ->
    accepted bad = false ->
    validateFrom validateZoomInstruction checkInstructionPurity i
                 (pre ++ bad :: post)
    = Some (rejection (i + List.length pre) bad).
Proof.
  induction pre as [| instruction pre IH]; intros i bad post Hpre Hbad; simpl.
  - rewrite Nat.add_0_r. unfold rejection, accepted in *.
    destruct (Validation.valid (validateZoomInstruction bad)); simpl in *.
    + rewrite Hbad. reflexivity.
    + reflexivity.
  - inversion Hpre as [| ? ? Hacc Hrest]; subst. unfold accepted in Hacc.
    apply andb_true_iff in Hacc. destruct Hacc as [Hv Hc].
    rewrite Hv, Hc. simpl. rewrite (IH (S i) bad post Hrest Hbad).
    rewrite Nat.add_succ_r. reflexivity.
Qed.

(** X18. [handleExport] calls [submitBatchZoomInstructions] exactly when
    there is at least one display effect, the video dimensions are stored
    and both non-zero, and every generated instruction passes
    [validateZoomInstruction] and [checkInstructionPurity]; what it submits
    is then the whole generated list, unchanged.  This holds for any
    implementation of the three functions. *)
Theorem handleExport_submits_only_checked :
  forall (instructions : option Instructions.t)
         (recordingDimensions : option RecordingDimensions.t)
         (submitted : list jsval),
    handleExport generateZoomInstructions validateZoomInstruction
                 checkInstructionPurity instructions recordingDimensions
    = Submit submitted
    <-> exists displayEffects dimensions,
        instructions = Some (Instructions.mk (Some displayEffects))
        /\ displayEffects <> []
        /\ recordingDimensions = Some dimensions
        /\ RecordingDimensions.recordingWidth dimensions <> 0%N
        /\ RecordingDimensions.recordingHeight dimensions <> 0%N
        /\ submitted
           = generateZoomInstructions displayEffects (frameSize dimensions)
        /\ Forall (fun instruction => accepted instruction = true) submitted.
Proof.
  intros instructions recordingDimensions submitted. split.
  - unfold handleExport.
    destruct instructions as [[[[| d rest] |]] |]; try discriminate.
    destruct recordingDimensions as [dimensions |]; try discriminate.
    destruct (N.eqb (RecordingDimensions.recordingWidth dimensions) 0) eqn:Ew;
      [discriminate |].
    destruct (N.eqb (RecordingDimensions.recordingHeight dimensions) 0) eqn:Eh;
      [discriminate |].
    simpl orb. cbv iota zeta.
    destruct (validateFrom _ _ 0 _) eqn:Ev; [discriminate |].
    intros Hs. injection Hs as <-.
    exists (d :: rest), dimensions.
    apply N.eqb_neq in Ew. apply N.eqb_neq in Eh.
    apply validateFrom_accepted in Ev.
    repeat split; try assumption; try reflexivity. discriminate.
  - intros [displayEffects [dimensions [-> [Hne [-> [Hw [Hh [-> Hall]]]]]]]].
    unfold handleExport.
    destruct displayEffects as [| d rest]; [contradiction |].
    apply N.eqb_neq in Hw. apply N.eqb_neq in Hh. rewrite Hw, Hh.
    simpl orb. cbv iota zeta.
    apply validateFrom_accepted with (i := 0%nat) in Hall.
    rewrite Hall. reflexivity.
Qed.

(** X19. When the guards pass and some generated instruction fails a
    check, [handleExport] submits nothing and reports the first failing
    instruction, counted from 1: a validation failure with its errors
    joined by a comma, or else the forbidden fields. *)
Theorem handleExport_reports_first_failure :
  forall (displayEffects : list DisplayEffect.t)
         (dimensions : RecordingDimensions.t)
         (pre post : list jsval) (bad : jsval),
    displayEffects <> [] ->
    RecordingDimensions.recordingWidth dimensions <> 0%N ->
    RecordingDimensions.recordingHeight dimensions <> 0%N ->
    generateZoomInstructions displayEffects (frameSize dimensions)
    = (pre ++ bad :: post)%list ->
    Forall (fun instruction => accepted instruction = true) pre ->
    accepted bad = false ->
    handleExport generateZoomInstructions validateZoomInstruction
                 checkInstructionPurity
                 (Some (Instructions.mk (Some displayEffects)))
                 (Some dimensions)
    = ExportError (rejection (List.length pre) bad).
Proof.
  intros displayEffects dimensions pre post bad Hne Hw Hh Hgen Hpre Hbad.
  unfold handleExport.
  destruct displayEffects as [| d rest]; [contradiction |].
  apply N.eqb_neq in Hw. apply N.eqb_neq in Hh. rewrite Hw, Hh.
  simpl orb. cbv iota zeta. rewrite Hgen.
  rewrite (validateFrom_first pre 0 bad post Hpre Hbad). reflexivity.
Qed.

End ExportGate.

Section ExportWitnesses.

Import Preview.

Lemma handleExport_submits_only_checked_witness :
  handleExport InstructionGenerator.generateZoomInstructions sampleValidate
               InstructionGenerator.checkInstructionPurity
               (Some (Instructions.mk (Some [zoomOn 2 5; window 1 3])))
               (Some fullHD)
  = Submit (InstructionGenerator.generateZoomInstructions
              [zoomOn 2 5; window 1 3] (frameSize fullHD)).
Proof.
  apply (proj2 (handleExport_submits_only_checked
                  InstructionGenerator.generateZoomInstructions sampleValidate
                  InstructionGenerator.checkInstructionPurity
                  (Some (Instructions.mk (Some [zoomOn 2 5; window 1 3])))
                  (Some fullHD) _)).
  exists [zoomOn 2 5; window 1 3], fullHD.
  split; [reflexivity |]. split; [discriminate |]. split; [reflexivity |].
  split; [discriminate |]. split; [discriminate |]. split; [reflexivity |].
  repeat constructor.
Defined.

Lemma handleExport_reports_first_failure_witness :
  handleExport InstructionGenerator.generateZoomInstructions sampleValidate
               InstructionGenerator.checkInstructionPurity
               (Some (Instructions.mk (Some [zoomOn 2 5; zoomOutside 6 8])))
               (Some fullHD)
  = ExportError
      "Instruction 2 validation failed: boundingBox.x is negative"%string.
Proof.
  apply (handleExport_reports_first_failure
           InstructionGenerator.generateZoomInstructions sampleValidate
           InstructionGenerator.checkInstructionPurity
           [zoomOn 2 5; zoomOutside 6 8] fullHD
           (InstructionGenerator.generateZoomInstructions
              [zoomOn 2 5] (frameSize fullHD))
           []
           (hd (VStr "")
               (InstructionGenerator.generateZoomInstructions
                  [zoomOutside 6 8] (frameSize fullHD)))).
  - discriminate.
  - discriminate.
  - discriminate.
  - reflexivity.
  - repeat constructor.
  - reflexivity.
Defined.

End ExportWitnesses.

(** ** The address of the generated audio *)

Section AudioUrl.

Local Open Scope string_scope.

Lemma prefix_app (p a b : string) :
  prefix p a = true -> prefix p (a ++ b) = true.
Proof.
  revert a. induction p as [| c p IH]; intros a Hp;
    [destruct (a ++ b); reflexivity |].
  destruct a as [| d a]; simpl in *; [discriminate |].
  destruct (Ascii.ascii_dec c d); [apply IH; exact Hp | discriminate].
Qed.

(** X20. When the base address starts with [http], the address built by
    [handleGenerateSpeech] always starts with [http], so building it twice
    changes nothing; an address that does not start with [http] is
    appended to the base with exactly one slash between them when it has
    none. *)
Theorem processedAudioUrl_absolute :
  forall API_BASE audioUrl : string,
    prefix "http" API_BASE = true ->
    let url := RecordingSessionPage.processedAudioUrl API_BASE audioUrl in
    prefix "http" url = true
    /\ RecordingSessionPage.processedAudioUrl API_BASE url = url
    /\ (prefix "http" audioUrl = false ->
        exists path,
          url = API_BASE ++ path
          /\ prefix "/" path = true
          /\ (path = audioUrl \/ path = "/" ++ audioUrl)).
Proof.
  intros API_BASE audioUrl Hbase url.
  assert (Hurl : prefix "http" url = true).
  { subst url. unfold RecordingSessionPage.processedAudioUrl.
    destruct (prefix "http" audioUrl) eqn:Eh; [exact Eh |].
    apply prefix_app, Hbase. }
  split; [exact Hurl |]. split.
  - unfold RecordingSessionPage.processedAudioUrl at 1. rewrite Hurl.
    reflexivity.
  - intros Hrel. subst url. unfold RecordingSessionPage.processedAudioUrl.
    rewrite Hrel. destruct (prefix "/" audioUrl) eqn:Es.
    + exists audioUrl. split; [reflexivity |]. split; [exact Es | left; reflexivity].
    + exists ("/" ++ audioUrl). split; [reflexivity |].
      split; [destruct audioUrl; reflexivity | right; reflexivity].
Qed.

Lemma processedAudioUrl_absolute_witness :
  RecordingSessionPage.processedAudioUrl
    "http://localhost:8000" "uploads/processed_audio.mp3"
  = "http://localhost:8000/uploads/processed_audio.mp3"
  /\ prefix "http"
       (RecordingSessionPage.processedAudioUrl
          "http://localhost:8000" "uploads/processed_audio.mp3") = true.
Proof.
  split; [reflexivity |].
  apply (processedAudioUrl_absolute
           "http://localhost:8000" "uploads/processed_audio.mp3").
  reflexivity.
Defined.

End AudioUrl.

(** ** No jump in the progress *)

Section ProgressContinuity.

Import EffectProcessor.
Local Open Scope Q_scope.








End ProgressContinuity.

(** ** The order of the effects does not matter *)

Section OrderIndependence.

Import EffectProcessor.
Context {E : Type} `{Timed E}.

Lemma jlt_jle (a b : jsnum) : jlt a b = true -> jle a b = true.
Proof.
  destruct a as [p | [] |], b as [q | [] |]; simpl; intros Hlt;
    try discriminate; try reflexivity.
  apply Qle_bool_iff, Qlt_le_weak, Qltb_lt, Hlt.
Qed.

Lemma jlt_not_jle (a b : jsnum) : jlt a b = true -> jle b a = true -> False.
Proof.
  intros Hlt Hle. rewrite (jle_jlt_false _ _ Hle) in Hlt. discriminate.
Qed.

(** In a list of distinct comparable starts every other effect starts
    strictly before the one [resolveZoomEffect] returns. *)
Lemma resolveZoomEffect_dominates (effects : list E) (e : E) :
  startsComparable effects ->
  distinctStarts effects ->
  resolveZoomEffect effects = Some e ->
  forall a, In a effects -> a = e \/ jlt (start a) (start e) = true.
Proof.
  intros Hc Hd Hr a Ha.
  assert (Hne : effects <> []) by (intro E0; subst; discriminate).
  destruct (resolveZoomEffect_split effects Hne Hc)
    as [pre [e' [post [Eq [Hr' [Hpre Hpost]]]]]].
  rewrite Hr in Hr'. injection Hr' as <-.
  rewrite Eq in Ha. apply in_app_or in Ha.
  destruct Ha as [Ha | [Ha | Ha]].
  - right. exact (Hpre a Ha).
  - left. symmetry. exact Ha.
  - right. apply jle_neq_jlt; [exact (Hpost a Ha) |].
    rewrite Eq in Hd. exact (distinctStarts_after pre post e Hd a Ha).
Qed.

(** X22. When no start is NaN and the starts are pairwise distinct, the
    effect [resolveZoomEffect] returns does not depend on the order of the
    list: every permutation gives the same answer. *)
Theorem resolveZoomEffect_order_independent :
  forall effects effects' : list E,
    startsComparable effects ->
    distinctStarts effects ->
    Permutation effects effects' ->
    resolveZoomEffect effects' = resolveZoomEffect effects.
Proof.
  intros effects effects' Hc Hd Hperm.
  destruct effects as [| first others].
  { apply Permutation_nil in Hperm. subst. reflexivity. }
  assert (Hne : first :: others <> []) by discriminate.
  assert (Hne' : effects' <> []).
  { intro E0. subst. apply Permutation_sym, Permutation_nil in Hperm.
    discriminate. }
  assert (Hc' : startsComparable effects').
  { unfold startsComparable in *. rewrite Forall_forall in *.
    intros a Ha. apply Hc. apply (Permutation_in _ (Permutation_sym Hperm) Ha). }
  destruct (resolveZoomEffect_split _ Hne Hc)
    as [pre [e [post [Eq [Hr [Hpre Hpost]]]]]].
  destruct (resolveZoomEffect_split _ Hne' Hc')
    as [pre' [e' [post' [Eq' [Hr' [Hpre' Hpost']]]]]].
  rewrite Hr, Hr'. f_equal.
  assert (He' : In e' (first :: others)).
  { apply (Permutation_in _ (Permutation_sym Hperm)).
    rewrite Eq'. apply in_or_app. right. left. reflexivity. }
  assert (He : In e effects').
  { apply (Permutation_in _ Hperm).
    rewrite Eq. apply in_or_app. right. left. reflexivity. }
  destruct (resolveZoomEffect_dominates _ e Hc Hd Hr e' He') as [Heq | Hlt];
    [exact Heq |].
  exfalso. rewrite Eq' in He. apply in_app_or in He.
  destruct He as [He | [He | He]].
  - exact (jlt_not_jle _ _ Hlt (jlt_jle _ _ (Hpre' e He))).
  - subst e'. exact (jlt_not_jle _ _ Hlt (jlt_jle _ _ Hlt)).
  - exact (jlt_not_jle _ _ Hlt (Hpost' e He)).
Qed.

End OrderIndependence.

Lemma resolveZoomEffect_order_independent_witness :
  EffectProcessor.resolveZoomEffect [window 2 9; window 3 6; window 1 5]
  = EffectProcessor.resolveZoomEffect [window 1 5; window 3 6; window 2 9].
Proof.
  apply (@resolveZoomEffect_order_independent
           DisplayEffect.t DisplayEffect_Timed
           [window 1 5; window 3 6; window 2 9]
           [window 2 9; window 3 6; window 1 5]).
  - repeat constructor.
  - repeat constructor.
  - apply perm_trans with [window 3 6; window 1 5; window 2 9].
    + apply perm_swap.
    + apply perm_trans with [window 3 6; window 2 9; window 1 5].
      * apply perm_skip, perm_swap.
      * apply perm_swap.
Defined.

(** ** Audio kept in step with the video *)

Section AudioSync.

Import NumberText.
Local Open Scope Q_scope.

Lemma Qabs_cases (d : Q) : (0 <= d /\ Qabs d == d) \/ (d <= 0 /\ Qabs d == - d).
Proof.
  destruct (Qlt_le_dec d 0) as [Hd | Hd].
  - right. split; [lra |]. apply Qabs_neg. lra.
  - left. split; [exact Hd |]. apply Qabs_pos. exact Hd.
Qed.

Lemma within_tolerance (tol d : Q) :
  - tol <= d <= tol -> Qltb tol (Qabs d) = false.
Proof.
  intros Hd. apply Qltb_ge. destruct (Qabs_cases d) as [[_ E] | [_ E]]; lra.
Qed.

Lemma beyond_tolerance (tol d : Q) :
  Qltb tol (Qabs d) = false -> - tol <= d <= tol.
Proof.
  intros Hd. apply Qltb_ge in Hd.
  destruct (Qabs_cases d) as [[H0 E] | [H0 E]]; lra.
Qed.

Lemma syncAudio_Num (a v : Q) :
  Preview.syncAudio (Num a) (Num v)
  = Num (if Qltb 0.1 (Qabs (a - v)) then v else a).
Proof.
  unfold Preview.syncAudio, jgt.
  change (jlt (Num 0.1) (Math_abs (jsub (Num a) (Num v))))
    with (Qltb 0.1 (Qabs (a - v))).
  destruct (Qltb 0.1 (Qabs (a - v))); reflexivity.
Qed.

Lemma handleTimeUpdate_Num (v a : Q) :
  RecordingSessionPage.handleTimeUpdate (Num v) (Num a)
  = Num (if Qltb 0.3 (Qabs (v - a)) then v else a).
Proof.
  unfold RecordingSessionPage.handleTimeUpdate, jgt. cbv zeta.
  change (jlt (Num 0.3) (Math_abs (jsub (Num v) (Num a))))
    with (Qltb 0.3 (Qabs (v - a))).
  destruct (Qltb 0.3 (Qabs (v - a))); reflexivity.
Qed.

(** X23. After [syncAudio] the audio is within 0.1 s of the video, and
    after [handleTimeUpdate] of the session page within 0.3 s; an audio
    time already within the tolerance is left untouched, so a second call
    changes nothing. *)
Theorem syncAudio_within_tolerance :
  (forall a v : Q,
      exists a' : Q,
        Preview.syncAudio (Num a) (Num v) = Num a'
        /\ - 0.1 <= a' - v <= 0.1
        /\ (- 0.1 <= a - v <= 0.1 -> a' = a)
        /\ Preview.syncAudio (Num a') (Num v) = Num a')
  /\ (forall v a : Q,
         exists a' : Q,
           RecordingSessionPage.handleTimeUpdate (Num v) (Num a) = Num a'
           /\ - 0.3 <= a' - v <= 0.3
           /\ (- 0.3 <= a - v <= 0.3 -> a' = a)
           /\ RecordingSessionPage.handleTimeUpdate (Num v) (Num a') = Num a').
Proof.
  split.
  - intros a v. rewrite syncAudio_Num.
    destruct (Qltb 0.1 (Qabs (a - v))) eqn:Hfar.
    + exists v. split; [reflexivity |]. split; [lra |]. split.
      * intros Hin. rewrite (within_tolerance 0.1 (a - v) Hin) in Hfar.
        discriminate.
      * rewrite syncAudio_Num, (within_tolerance 0.1 (v - v)) by lra.
        reflexivity.
    + exists a. split; [reflexivity |].
      split; [exact (beyond_tolerance _ _ Hfar) |].
      split; [reflexivity |]. rewrite syncAudio_Num, Hfar. reflexivity.
  - intros v a. rewrite handleTimeUpdate_Num.
    destruct (Qltb 0.3 (Qabs (v - a))) eqn:Hfar.
    + exists v. split; [reflexivity |]. split; [lra |]. split.
      * intros Hin. rewrite (within_tolerance 0.3 (v - a)) in Hfar by lra.
        discriminate.
      * rewrite handleTimeUpdate_Num, (within_tolerance 0.3 (v - v)) by lra.
        reflexivity.
    + exists a. split; [reflexivity |].
      pose proof (beyond_tolerance _ _ Hfar) as Hin.
      split; [lra |].
      split; [reflexivity |]. rewrite handleTimeUpdate_Num, Hfar. reflexivity.
Qed.

Lemma syncAudio_within_tolerance_witness :
  exists a' : Q,
    Preview.syncAudio (Num 3.05) (Num 3) = Num a'
    /\ - 0.1 <= a' - 3 <= 0.1
    /\ (- 0.1 <= 3.05 - 3 <= 0.1 -> a' = 3.05)
    /\ Preview.syncAudio (Num a') (Num 3) = Num a'.
Proof.
  exact (proj1 syncAudio_within_tolerance 3.05 3).
Defined.

End AudioSync.
